(** * mygit: object encodings, index, references and commands

    A shallow embedding of [main.cpp] (a small content-addressed version
    control store) and the properties of its object encoders, decoders
    and commands.

    Conventions.
    - [std::string] is [string]: a sequence of 8-bit characters; positions
      and sizes are [nat], [string::npos] is [None].
    - The repository files are a finite map from the path strings the
      program itself builds ([".mygit\index"], ...) to their contents;
      every write is also recorded, in order, in a list of effects.
      Opening a file for writing is taken to succeed, and the text-mode
      streams of the index and the log are taken to transfer the
      characters unchanged.
    - OpenSSL's [SHA1] and zlib's [compress] and [uncompress] are not part
      of the program: they are the fields of the class [Externals]. The
      clock read by [time(nullptr)] is an argument. *)

From Stdlib Require Import ZArith NArith Lia Ascii String DecimalString.
From Stdlib Require Import Strings.Byte.
From stdpp Require Import base option list strings gmap.

Local Open Scope nat_scope.

(** ** Characters used by the encodings *)

Definition NUL : ascii := "000"%char.
Definition LF : ascii := "010"%char.
Definition SP : ascii := " "%char.

(** [string(1, c)] *)
Definition string1 (c : ascii) : string := String c "".

(** ["\n"] *)
Definition nl : string := string1 LF.

(** ** The [std::string] operations the program uses *)

Module Str.

Abbreviation len := String.length.

(** [s.empty()] *)
Definition empty (s : string) : bool :=
  match s with "" => true | _ => false end.

(** [s.find(c, pos)]: the first position [>= pos] holding [c]. *)
Fixpoint find (c : ascii) (s : string) (pos : nat) : option nat :=
  match s with
  | "" => None
  | String a s' =>
      match pos with
      | 0 => if Ascii.eqb a c then Some 0 else S <$> find c s' 0
      | S p => S <$> find c s' p
      end
  end.

(** [s.find_last_of(cs)]: the last position holding a character of [cs]. *)
Fixpoint find_last_of (cs : list ascii) (s : string) : option nat :=
  match s with
  | "" => None
  | String a s' =>
      match find_last_of cs s' with
      | Some i => Some (S i)
      | None => if bool_decide (a ∈ cs) then Some 0 else None
      end
  end.

(** [s.rfind(c)] *)
Definition rfind (c : ascii) (s : string) : option nat := find_last_of [c] s.

(** [s.substr(pos)]. The C++ call throws [out_of_range] when
    [pos > s.size()]; the model returns the empty string there. *)
Fixpoint drop (pos : nat) (s : string) : string :=
  match pos, s with
  | 0, _ => s
  | S p, String _ s' => drop p s'
  | S _, "" => ""
  end.

Fixpoint take (n : nat) (s : string) : string :=
  match n, s with
  | S m, String a s' => String a (take m s')
  | _, _ => ""
  end.

(** [s.substr(pos, n)] *)
Definition substr (s : string) (pos n : nat) : string := take n (drop pos s).

(** every character of [s] satisfies [p] *)
Fixpoint all (p : ascii -> bool) (s : string) : bool :=
  match s with
  | "" => true
  | String a s' => p a && all p s'
  end.

(** [c] does not occur in [s] *)
Definition lacks (c : ascii) (s : string) : bool :=
  all (fun a => negb (Ascii.eqb a c)) s.

(** [s.back() == c], the test that precedes [pop_back]. [back()] of an
    empty string is undefined in C++; the model answers [false]. *)
Fixpoint ends_with (c : ascii) (s : string) : bool :=
  match s with
  | "" => false
  | String a "" => Ascii.eqb a c
  | String _ s' => ends_with c s'
  end.

(** [s.pop_back()] *)
Fixpoint pop_back (s : string) : string :=
  match s with
  | "" => ""
  | String _ "" => ""
  | String a s' => String a (pop_back s')
  end.

(** [if (s.back() == '\n') s.pop_back();] *)
Definition chomp (s : string) : string :=
  if ends_with LF s then pop_back s else s.

(** [std::to_string] of a [size_t]: decimal digits, ["0"] for zero. *)
Definition to_string (n : nat) : string :=
  NilZero.string_of_uint (Nat.to_uint n).

(** [operator<<] of a [time_t] (a signed integer), in decimal. *)
Definition of_Z (z : Z) : string :=
  NilZero.string_of_int (Z.to_int z).

Definition is_digit (a : ascii) : bool :=
  match a with
  | "0" | "1" | "2" | "3" | "4" | "5" | "6" | "7" | "8" | "9" => true
  | _ => false
  end%char.

(** [std::string::operator<]: lexicographic on the bytes. *)
Definition ltb (a b : string) : bool := String.ltb a b.

(** The lines [std::getline] yields, one per call, until it fails: the
    text is cut at every ['\n']; a last line without ['\n'] is yielded
    when it is not empty. *)
Fixpoint getlines (s : string) : list string :=
  match s with
  | "" => []
  | String a s' =>
      if Ascii.eqb a LF then "" :: getlines s'
      else match getlines s' with
           | [] => [String a ""]
           | l :: ls => String a l :: ls
           end
  end.

(** [stream >> word]: skip the leading white space, then read up to the
    next white space. The word is empty when nothing is left, and then
    every later extraction gives the empty word too. *)
Fixpoint skip_ws (s : string) : string :=
  match s with
  | "" => ""
  | String a s' => if Ascii.is_space a then skip_ws s' else s
  end.

Fixpoint take_word (s : string) : string * string :=
  match s with
  | "" => ("", "")
  | String a s' =>
      if Ascii.is_space a then ("", s)
      else let '(w, rest) := take_word s' in (String a w, rest)
  end.

Definition extract (s : string) : string * string := take_word (skip_ws s).

End Str.

(** ** Library functions and constants *)

(** The return codes of zlib's [uncompress] the program distinguishes:
    [Z_OK] with the decoded bytes, [Z_BUF_ERROR], anything else. *)
Inductive zresult :=
| Z_OK (out : string)
| Z_BUF_ERROR
| Z_OTHER (code : Z).

Class Externals := {
  (** OpenSSL [SHA1]: the [SHA_DIGEST_LENGTH] bytes of the hash. *)
  SHA1 : string -> list byte;
  (** zlib [compress] into a buffer of [compressBound] bytes: the stream,
      or [None] when the call does not return [Z_OK]. *)
  zlib_compress : string -> option string;
  (** zlib [uncompress] of a source into a buffer of [destLen] bytes. *)
  zlib_uncompress : string -> N -> zresult;
}.

(** What the program relies on: a SHA-1 hash has 20 bytes, and a
    compressed stream is never empty (it starts with a two-byte header). *)
Class ExternalsOk (E : Externals) : Prop := {
  SHA1_length : forall data, length (SHA1 data) = 20;
  zlib_compress_ok : forall data, exists c, zlib_compress data = Some c /\ c <> "";
}.

Definition REPO_DIR : string := ".mygit".

(** zlib's [uLong] and [uLongf] are [unsigned long], 32 bits wide on
    Windows, the platform of this program ([windows.h]). *)
Definition uLong (n : N) : N := (n mod 2 ^ 32)%N.

(** The bytes a call reads when it is given [s.size()] as a [uLong]. *)
Definition uLong_prefix (s : string) : string :=
  Str.take (N.to_nat (uLong (N.of_nat (Str.len s)))) s.

(** ** Utilities *)

(** [getFilename] *)
Definition getFilename (path : string) : string :=
  match Str.find_last_of ["\"%char; "/"%char] path with
  | Some pos => Str.drop (pos + 1) path
  | None => path
  end.

Definition hex_digit (n : N) : ascii :=
  match n with
  | 0 => "0" | 1 => "1" | 2 => "2" | 3 => "3" | 4 => "4" | 5 => "5"
  | 6 => "6" | 7 => "7" | 8 => "8" | 9 => "9" | 10 => "a" | 11 => "b"
  | 12 => "c" | 13 => "d" | 14 => "e" | _ => "f"
  end%N%char.

(** [ss << hex << setw(2) << setfill('0') << (int)hash[i]] *)
Definition hex2 (b : byte) : string :=
  let n := Byte.to_N b in
  String (hex_digit (n / 16)) (String (hex_digit (n mod 16)) "").

(** [computeSHA1] *)
Definition computeSHA1 `{Externals} (data : string) : string :=
  foldr (fun b acc => hex2 b +:+ acc) "" (SHA1 data).

(** ** The repository files and the effects of a command *)

Inductive Effect :=
| Wrote (path data : string)     (** a file created or truncated, then written *)
| Appended (path data : string)  (** text added at the end of a file *)
| Stdout (text : string)
| Stderr (text : string).

Record World := mkWorld {
  files : gmap string string;
  effects : list Effect;
}.

Definition emit (e : Effect) (w : World) : World :=
  mkWorld (files w) (effects w ++ [e]).

(** [fileExists], for a path that is not a directory: the file map
    holds the regular files, and [fs::exists] is true of a directory
    too ([pathExists] below). *)
Definition fileExists (path : string) (w : World) : bool :=
  bool_decide (is_Some (files w !! path)).

(** [readFile], for a path that is not a directory. *)
Definition readFile (path : string) (w : World) : string * World :=
  match files w !! path with
  | None => ("", emit (Stderr ("Error: Cannot read file " +:+ path +:+ nl)) w)
  | Some content => (content, w)
  end.

(** [writeFile] *)
Definition writeFile (path data : string) (w : World) : World :=
  mkWorld (<[path := data]> (files w)) (effects w ++ [Wrote path data]).

(** [ofstream file(path, ios::app); file << data;] *)
Definition appendFile (path data : string) (w : World) : World :=
  mkWorld (<[path := default "" (files w !! path) +:+ data]> (files w))
          (effects w ++ [Appended path data]).

(** ** Codec *)

(** [compressData]: the stream, or the empty string after a diagnostic. *)
Definition compressData `{Externals} (data : string) (w : World) : string * World :=
  match zlib_compress (uLong_prefix data) with
  | Some compressed => (compressed, w)
  | None => ("", emit (Stderr ("Error: Compression failed" +:+ nl)) w)
  end.

(** What [decompressData] returns: the decoded bytes, or the empty string
    after the diagnostic ["Error: Decompression failed"]. *)
Inductive Decompressed :=
| Decoded (out : string)
| DecompressFailed.

(** The [while (true)] loop of [decompressData]. One unit of fuel is one
    call of [uncompress]; [None] means the loop has not returned yet. On
    [Z_BUF_ERROR] zlib leaves [uncompressedSize] at the buffer size it
    was given, and the loop doubles it in [uLongf] arithmetic. *)
Fixpoint decompress_loop `{Externals} (fuel : nat) (compressed : string)
    (uncompressedSize : N) : option Decompressed :=
  match fuel with
  | 0 => None
  | S fuel' =>
      match zlib_uncompress (uLong_prefix compressed) uncompressedSize with
      | Z_OK out => Some (Decoded out)
      | Z_BUF_ERROR =>
          decompress_loop fuel' compressed (uLong (uncompressedSize * 2))
      | Z_OTHER _ => Some DecompressFailed
      end
  end.

(** [decompressData] *)
Definition decompressData `{Externals} (fuel : nat) (compressed : string)
    : option Decompressed :=
  decompress_loop fuel compressed (uLong (N.of_nat (Str.len compressed) * 10)).

(** zlib (1.2.9 and later) decodes into a one-byte scratch buffer when
    [destLen] is zero and then answers [Z_OK] or [Z_DATA_ERROR]: a
    zero-length buffer is never reported as too short. *)
Definition zero_length_not_short `{Externals} : Prop :=
  forall source, zlib_uncompress source 0 <> Z_BUF_ERROR.

(** The buffer sizes the loop tries, in order. *)
Fixpoint buffer_size (initial : N) (k : nat) : N :=
  match k with
  | 0 => initial
  | S k' => uLong (buffer_size initial k' * 2)
  end.

(** ** Object store *)

(** [getObjectPath], for a digest of two characters or more.
    [sha.substr(2)] throws [std::out_of_range] for a shorter one and the
    program ends there, so what is stated of a digest that does not come
    from [computeSHA1] (forty characters) carries [2 <= Str.len sha]. *)
Definition getObjectPath (sha : string) : string :=
  REPO_DIR +:+ "\objects\" +:+ Str.substr sha 0 2 +:+ "\" +:+ Str.drop 2 sha.

(** [writeObject] *)
Definition writeObject `{Externals} (sha content : string) (w : World) : World :=
  let path := getObjectPath sha in
  let '(compressed, w1) := compressData content w in
  if Str.empty compressed then w1 else writeFile path compressed w1.

(** ** Blobs *)

(** ["blob " + to_string(content.size()) + string(1, '\0') + content] *)
Definition blob_data (content : string) : string :=
  "blob " +:+ Str.to_string (Str.len content) +:+ string1 NUL +:+ content.

(** [createBlob], for a path that is not a directory: there the path
    is missing exactly when the file map has nothing for it. For a
    directory [fs::exists] is true and neither early return is taken;
    what is stated of [createBlob] excludes it with
    [is_directory d filepath = false]. *)
Definition createBlob `{Externals} (filepath : string) (w : World) : string * World :=
  let '(content, w1) := readFile filepath w in
  if Str.empty content && negb (fileExists filepath w1) then ("", w1)
  else
    let blobData := blob_data content in
    let sha := computeSHA1 blobData in
    (sha, writeObject sha blobData w1).

(** The blob branch of [restoreTree] (lines 613-617), applied to the
    object [readObject] returned: the content is what follows the first
    null byte; [None] when the entry is skipped. *)
Definition blob_content (blobData : string) : option string :=
  if Str.empty blobData then None
  else match Str.find NUL blobData 0 with
       | None => None
       | Some nullPos => Some (Str.drop (nullPos + 1) blobData)
       end.

(** ** Trees *)

Record TreeEntry := mkTreeEntry {
  te_mode : string;
  te_name : string;
  te_sha : string;
  te_isTree : bool;
}.

(** [treeContent << entry.mode << " " << entry.name << '\0' << entry.sha] *)
Definition tree_record (mode name sha : string) : string :=
  mode +:+ " " +:+ name +:+ string1 NUL +:+ sha.

(** ["tree " + to_string(body.size()) + '\0' + body] *)
Definition tree_object (body : string) : string :=
  "tree " +:+ Str.to_string (Str.len body) +:+ string1 NUL +:+ body.

(** The encoding loop of [createTree] (lines 255-263) over the entries
    [listDirectory] returned. *)
Definition tree_body (entries : list TreeEntry) : string :=
  foldr (fun e acc => tree_record (te_mode e) (te_name e) (te_sha e) +:+ acc)
        "" entries.

Definition tree_data (entries : list TreeEntry) : string :=
  tree_object (tree_body entries).

(** The [while (pos < treeData.size())] loop of [parseTree]. Each round
    moves [pos] forward, so [treeData.size()] rounds of fuel are enough
    ([parseTree_loop_total]). *)
Fixpoint parseTree_loop (fuel : nat) (treeData : string) (pos : nat)
    (entries : list TreeEntry) : option (list TreeEntry) :=
  match fuel with
  | 0 => None
  | S fuel' =>
      if negb (Nat.ltb pos (Str.len treeData)) then Some entries
      else
        match Str.find SP treeData pos with
        | None => Some entries
        | Some spacePos =>
            let mode := Str.substr treeData pos (spacePos - pos) in
            let pos1 := spacePos + 1 in
            match Str.find NUL treeData pos1 with
            | None => Some entries
            | Some nullPos2 =>
                let name := Str.substr treeData pos1 (nullPos2 - pos1) in
                let pos2 := nullPos2 + 1 in
                if Nat.ltb (Str.len treeData) (pos2 + 40) then Some entries
                else
                  let sha := Str.substr treeData pos2 40 in
                  let entry :=
                    mkTreeEntry mode name sha (String.eqb mode "040000") in
                  parseTree_loop fuel' treeData (pos2 + 40) (entries ++ [entry])
            end
        end
  end.

(** [parseTree], applied to the object [readObject] returned. *)
Definition parseTree_data (treeData : string) : option (list TreeEntry) :=
  if Str.empty treeData then Some []
  else match Str.find NUL treeData 0 with
       | None => Some []
       | Some nullPos =>
           parseTree_loop (S (Str.len treeData)) treeData (nullPos + 1) []
       end.

(** Strictly increasing by name, for [std::string::operator<], the order
    [listDirectory] sorts by. *)
Fixpoint names_increasing (entries : list TreeEntry) : bool :=
  match entries with
  | [] => true
  | a :: rest =>
      match rest with
      | [] => true
      | b :: _ => Str.ltb (te_name a) (te_name b) && names_increasing rest
      end
  end.

(** A tree object with any size in its header. *)
Definition tree_object_sized (n : nat) (body : string) : string :=
  "tree " +:+ Str.to_string n +:+ string1 NUL +:+ body.

(** A well-formed record: the mode holds no space, the name no null
    byte, the digest has forty characters. *)
Definition record_ok (mode name sha : string) : bool :=
  Str.lacks SP mode && Str.lacks NUL name && Nat.eqb (Str.len sha) 40.

(** A well-formed tree entry; its [isTree] flag is the one its mode gives. *)
Definition entry_ok (e : TreeEntry) : bool :=
  record_ok (te_mode e) (te_name e) (te_sha e)
  && Bool.eqb (te_isTree e) (String.eqb (te_mode e) "040000").

(** A partial trailing record: a record cut in its mode, in its name, or
    in its digest. *)
Inductive partial_record : string -> Prop :=
| cut_in_mode (part : string) :
    part <> "" -> Str.lacks SP part = true -> partial_record part
| cut_in_name (mode part : string) :
    Str.lacks SP mode = true -> Str.lacks NUL part = true ->
    partial_record (mode +:+ " " +:+ part)
| cut_in_sha (mode name part : string) :
    Str.lacks SP mode = true -> Str.lacks NUL name = true ->
    Str.len part < 40 ->
    partial_record (mode +:+ " " +:+ name +:+ string1 NUL +:+ part).

(** ** Commits *)

Definition ZERO_SHA : string := "0000000000000000000000000000000000000000".

(** The test of [createCommit] that guards the parent line. *)
Definition has_parent (parentSha : string) : bool :=
  negb (Str.empty parentSha) && negb (String.eqb parentSha ZERO_SHA).

(** The text [createCommit] assembles in [commitContent]. *)
Definition commit_content (treeSha parentSha message : string) (now : Z) : string :=
  "tree " +:+ treeSha +:+ nl
  +:+ (if has_parent parentSha then "parent " +:+ parentSha +:+ nl else "")
  +:+ "author User <user@example.com> " +:+ Str.of_Z now +:+ " +0000" +:+ nl
  +:+ "committer User <user@example.com> " +:+ Str.of_Z now +:+ " +0000" +:+ nl
  +:+ nl +:+ message +:+ nl.

(** ["commit " + to_string(content.size()) + '\0' + content] *)
Definition commit_object (content : string) : string :=
  "commit " +:+ Str.to_string (Str.len content) +:+ string1 NUL +:+ content.

Definition commit_data (treeSha parentSha message : string) (now : Z) : string :=
  commit_object (commit_content treeSha parentSha message now).

(** [createCommit]; [now] is the value of [time(nullptr)]. *)
Definition createCommit `{Externals} (treeSha parentSha message : string)
    (now : Z) (w : World) : string * World :=
  let commitData := commit_data treeSha parentSha message now in
  let sha := computeSHA1 commitData in
  (sha, writeObject sha commitData w).

Record CommitInfo := mkCommitInfo {
  ci_treeSha : string;
  ci_parentSha : string;
  ci_author : string;
  ci_committer : string;
  ci_message : string;
  ci_timestamp : string;
}.

Definition empty_info : CommitInfo := mkCommitInfo "" "" "" "" "" "".

(** [line.substr(0, n) == prefix] with [n] the length of [prefix] *)
Definition starts_with (prefix line : string) : bool :=
  String.eqb (Str.substr line 0 (Str.len prefix)) prefix.

(** One round of the first [while (getline(stream, line))] loop of
    [parseCommit], for a line that is not empty. *)
Definition parse_header_line (info : CommitInfo) (line : string) : CommitInfo :=
  if starts_with "tree " line then
    mkCommitInfo (Str.drop 5 line) (ci_parentSha info) (ci_author info)
                 (ci_committer info) (ci_message info) (ci_timestamp info)
  else if starts_with "parent " line then
    mkCommitInfo (ci_treeSha info) (Str.drop 7 line) (ci_author info)
                 (ci_committer info) (ci_message info) (ci_timestamp info)
  else if starts_with "author " line then
    mkCommitInfo (ci_treeSha info) (ci_parentSha info) (Str.drop 7 line)
                 (ci_committer info) (ci_message info) (ci_timestamp info)
  else if starts_with "committer " line then
    let committer := Str.drop 10 line in
    mkCommitInfo (ci_treeSha info) (ci_parentSha info) (ci_author info)
                 committer (ci_message info)
                 (match Str.rfind SP committer with
                  | Some timePos => Str.drop (timePos + 1) committer
                  | None => ci_timestamp info
                  end)
  else info.

(** The first loop: header lines up to the first empty line. Returns the
    lines left in the stream. *)
Fixpoint parse_header (lines : list string) (info : CommitInfo)
    : CommitInfo * list string :=
  match lines with
  | [] => (info, [])
  | line :: rest =>
      if Str.empty line then (info, rest)
      else parse_header rest (parse_header_line info line)
  end.

(** The second loop: [info.message += line + "\n"]. *)
Definition parse_message (lines : list string) : string :=
  foldl (fun msg line => msg +:+ line +:+ nl) "" lines.

(** [parseCommit], applied to the object [readObject] returned. *)
Definition parseCommit_data (commitData : string) : CommitInfo :=
  if Str.empty commitData then empty_info
  else match Str.find NUL commitData 0 with
       | None => empty_info
       | Some nullPos =>
           let content := Str.drop (nullPos + 1) commitData in
           let '(info, rest) := parse_header (Str.getlines content) empty_info in
           mkCommitInfo (ci_treeSha info) (ci_parentSha info) (ci_author info)
                        (ci_committer info) (parse_message rest)
                        (ci_timestamp info)
       end.

(** The header lines of a commit text: the lines the first loop of
    [parseCommit] visits. *)
Fixpoint header_lines (lines : list string) : list string :=
  match lines with
  | [] => []
  | line :: rest => if Str.empty line then [] else line :: header_lines rest
  end.

(** The header lines of the commit text [createCommit] assembles. *)
Definition commit_header (treeSha parentSha message : string) (now : Z)
    : list string :=
  header_lines (Str.getlines (commit_content treeSha parentSha message now)).

Definition is_signed_digit (a : ascii) : bool :=
  Str.is_digit a || Ascii.eqb a "-".

(** The identity line [createCommit] writes after ["author "] and
    ["committer "]. *)
Definition identity_line (now : Z) : string :=
  "User <user@example.com> " +:+ Str.of_Z now +:+ " +0000".

(** ** Index *)

Record IndexEntry := mkIndexEntry {
  ie_path : string;
  ie_sha : string;
  ie_mode : string;
}.

Definition indexPath : string := REPO_DIR +:+ "\index".
Definition headPath : string := REPO_DIR +:+ "\HEAD".
Definition logPath : string := REPO_DIR +:+ "\logs\HEAD".

(** [iss >> entry.mode >> entry.sha >> entry.path] *)
Definition parse_index_line (line : string) : IndexEntry :=
  let '(mode, rest1) := Str.extract line in
  let '(sha, rest2) := Str.extract rest1 in
  let '(path, _) := Str.extract rest2 in
  mkIndexEntry path sha mode.

(** [readIndex] *)
Definition readIndex (w : World) : list IndexEntry :=
  match files w !! indexPath with
  | None => []
  | Some text => map parse_index_line (Str.getlines text)
  end.

(** The encoding loop of [createTreeFromIndex] (lines 502-508), in the
    order of the index. *)
Definition index_tree_body (index : list IndexEntry) : string :=
  foldr (fun e acc =>
           tree_record (ie_mode e) (getFilename (ie_path e)) (ie_sha e) +:+ acc)
        "" index.

Definition index_tree_data (index : list IndexEntry) : string :=
  tree_object (index_tree_body index).

(** [createTreeFromIndex] *)
Definition createTreeFromIndex `{Externals} (w : World) : string * World :=
  match readIndex w with
  | [] => ("", w)
  | index =>
      let treeData := index_tree_data index in
      let sha := computeSHA1 treeData in
      (sha, writeObject sha treeData w)
  end.

(** The tree entry an index entry becomes, as [parseTree] reads it back. *)
Definition entry_of_index (e : IndexEntry) : TreeEntry :=
  mkTreeEntry (ie_mode e) (getFilename (ie_path e)) (ie_sha e)
              (String.eqb (ie_mode e) "040000").

(** An index entry that becomes a well-formed record. *)
Definition index_entry_ok (e : IndexEntry) : bool :=
  record_ok (ie_mode e) (getFilename (ie_path e)) (ie_sha e).

(** ** References and log *)

(** [getHEAD] *)
Definition getHEAD (w : World) : string * World :=
  if negb (fileExists headPath w) then ("", w)
  else
    let '(content, w1) := readFile headPath w in
    if starts_with "ref: " content then
      let refPath := Str.chomp (REPO_DIR +:+ "\" +:+ Str.drop 5 content) in
      if fileExists refPath w1 then
        let '(sha, w2) := readFile refPath w1 in
        (Str.chomp sha, w2)
      else ("", w1)
    else ("", w1).

(** The file [updateHEAD] writes for a [HEAD] that holds [content]:
    [REPO_DIR + "\\" + refPath], when [content] starts with ["ref: "]. *)
Definition head_target (content : string) : option string :=
  if starts_with "ref: " content
  then Some (REPO_DIR +:+ "\" +:+ Str.chomp (Str.drop 5 content))
  else None.

(** [updateHEAD] *)
Definition updateHEAD (commitSha : string) (w : World) : World :=
  let '(content, w1) := readFile headPath w in
  match head_target content with
  | Some target => writeFile target (commitSha +:+ nl) w1
  | None => w1
  end.

(** The record [updateLog] appends; [now] is its own [time(nullptr)]. *)
Definition log_record (commitSha parentSha message : string) (now : Z) : string :=
  "commit " +:+ commitSha +:+ nl
  +:+ (if negb (Str.empty parentSha) then "parent " +:+ parentSha +:+ nl else "")
  +:+ "message " +:+ message +:+ nl
  +:+ "timestamp " +:+ Str.of_Z now +:+ nl
  +:+ "---" +:+ nl.

(** [updateLog] *)
Definition updateLog (commitSha parentSha message : string) (now : Z)
    (w : World) : World :=
  appendFile logPath (log_record commitSha parentSha message now) w.

(** ** Commands *)

(** [cmdCommit]; [now] is the clock [createCommit] reads and [now_log]
    the one [updateLog] reads. *)
Definition cmdCommit `{Externals} (message : string) (now now_log : Z)
    (w : World) : World :=
  let '(treeSha, w1) := createTreeFromIndex w in
  if Str.empty treeSha then emit (Stdout ("Nothing to commit" +:+ nl)) w1
  else
    let '(parentSha, w2) := getHEAD w1 in
    let '(commitSha, w3) := createCommit treeSha parentSha message now w2 in
    let w4 := updateHEAD commitSha w3 in
    let w5 := updateLog commitSha parentSha message now_log w4 in
    let w6 := writeFile indexPath "" w5 in
    emit (Stdout (commitSha +:+ nl)) w6.

(** *** The clear phase of [cmdCheckout] (lines 791-809) *)

(** An entry of a directory: a file, or a directory with its own
    entries. *)
#[warnings="-register-all"]
Inductive Node :=
| File (name content : string)
| Dir (name : string) (children : list Node).

(** [entry.path().filename().string()] *)
Definition node_name (node : Node) : string :=
  match node with
  | File name _ => name
  | Dir name _ => name
  end.

(** [fs::remove_all(entry.path())]: the entry is gone, or the call throws
    a [filesystem_error] with the message [what] and the entry is still
    there, with whatever the call left of it. *)
Inductive RemoveResult :=
| Removed
| RemoveFailed (what : string) (remains : Node).

(** The names the loop skips. *)
Definition protected_name (name : string) : bool :=
  String.eqb name "." || String.eqb name ".." || String.eqb name REPO_DIR
  || String.eqb name "mygit.exe" || String.eqb name "main.cpp"
  || String.eqb name "makefile".

(** The line printed when a removal fails. *)
Definition removal_warning (name what : string) : Effect :=
  Stderr ("Warning: Could not remove " +:+ name +:+ " during checkout: "
          +:+ what +:+ nl).

(** One round of the loop: what is left of the entry and what is
    printed. *)
Definition clear_entry (remove_all : Node -> RemoveResult) (entry : Node)
    : option Node * list Effect :=
  let name := node_name entry in
  if protected_name name then (Some entry, [])
  else
    match remove_all entry with
    | Removed => (None, [])
    | RemoveFailed what remains =>
        (Some remains, [removal_warning name what])
    end.

(** The loop over [fs::directory_iterator(".")]: the entries of the
    working directory after it, and the warnings, in the order of the
    iteration. *)
Fixpoint checkout_clear (remove_all : Node -> RemoveResult)
    (listing : list Node) : list Node * list Effect :=
  match listing with
  | [] => ([], [])
  | entry :: rest =>
      let '(remaining, out) := clear_entry remove_all entry in
      let '(kept, warnings) := checkout_clear remove_all rest in
      (match remaining with Some n => n :: kept | None => kept end,
       out ++ warnings)
  end.

(** Whether [fs::remove_all] throws on the entry. *)
Definition removal_fails (remove_all : Node -> RemoveResult) (entry : Node)
    : bool :=
  match remove_all entry with
  | Removed => false
  | RemoveFailed _ _ => true
  end.

(** ** Stand-ins for the library functions, to run the model *)

(** A 20-byte checksum in the place of SHA-1. *)
Definition sample_SHA1 (data : string) : list byte :=
  let sum := foldr (fun a acc => (N_of_ascii a + 31 * acc) mod 256)%N 7%N
                   (list_ascii_of_string data) in
  map (fun i => default x00 (Byte.of_N ((sum + 13 * i) mod 256)%N))
      (map N.of_nat (seq 0 20)).

(** A stored stream: one marker byte, then the data. *)
Definition sample_compress (data : string) : option string :=
  Some (String "x" data).

(** Like zlib, it reports no short buffer for a zero-length buffer. *)
Definition sample_uncompress (source : string) (destLen : N) : zresult :=
  match source with
  | String "x" data =>
      if (N.of_nat (Str.len data) <=? destLen)%N then Z_OK data
      else if (destLen =? 0)%N then Z_OTHER (-3)
      else Z_BUF_ERROR
  | _ => Z_OTHER (-3)
  end.

Definition sample_externals : Externals :=
  {| SHA1 := sample_SHA1;
     zlib_compress := sample_compress;
     zlib_uncompress := sample_uncompress |}.

(** A run-length decoder: a source of [k] bytes stands for [256 ^ k] zero
    bytes, so that four bytes decode to [2 ^ 32] bytes. *)
Definition runlength_uncompress (source : string) (destLen : N) : zresult :=
  let size := (2 ^ (8 * N.of_nat (Str.len source)))%N in
  if (size <=? destLen)%N then Z_OK (N.iter size (String NUL) "")
  else if (destLen =? 0)%N then Z_OTHER (-3)
  else Z_BUF_ERROR.

Definition runlength_externals : Externals :=
  {| SHA1 := sample_SHA1;
     zlib_compress := sample_compress;
     zlib_uncompress := runlength_uncompress |}.

(** A repository as [cmdInit] leaves it, with the given index text. *)
Definition sample_world (index_text : string) : World :=
  mkWorld (<[headPath := "ref: refs\heads\master" +:+ nl]>
             (<[indexPath := index_text]> ∅))
          [].

Definition sha_a : string := "aaaaaaaaaaaaaaaaaaaaaaaaaaaaaaaaaaaaaaaa".
Definition sha_b : string := "bbbbbbbbbbbbbbbbbbbbbbbbbbbbbbbbbbbbbbbb".

(** Two staged files, [b.txt] added before [a.txt]. *)
Definition index_b_a : list IndexEntry :=
  [mkIndexEntry "b.txt" sha_b "100644"; mkIndexEntry "a.txt" sha_a "100644"].

(** Two staged files with the same terminal path component. *)
Definition index_collide : list IndexEntry :=
  [mkIndexEntry "sub\x.txt" sha_a "100644"; mkIndexEntry "x.txt" sha_b "100644"].

Definition index_text (index : list IndexEntry) : string :=
  foldr (fun e acc =>
           ie_mode e +:+ " " +:+ ie_sha e +:+ " " +:+ ie_path e +:+ nl +:+ acc)
        "" index.

Definition entry_a : TreeEntry := mkTreeEntry "100644" "a.txt" sha_a false.
Definition entry_b : TreeEntry := mkTreeEntry "100644" "b.txt" sha_b false.

(** The tree of [a.txt] and [b.txt] with the last ten digest bytes lost. *)
Definition truncated_tree : string :=
  tree_object_sized 106
    (tree_body [entry_a]
     +:+ "100644 b.txt" +:+ string1 NUL +:+ "bbbbbbbbbbbbbbbbbbbbbbbbbbbbbb").

(** ** Reading objects back *)

(** What zlib promises for the streams [compress] produces: [uncompress]
    gives the data back when the buffer has room for it, and reports a
    short buffer when a buffer of at least one byte has not. *)
Class ZlibRoundTrip (E : Externals) : Prop := {
  uncompress_fits : forall data c n,
    zlib_compress data = Some c -> (N.of_nat (Str.len data) <= n)%N ->
    zlib_uncompress c n = Z_OK data;
  uncompress_short : forall data c n,
    zlib_compress data = Some c -> (0 < n < N.of_nat (Str.len data))%N ->
    zlib_uncompress c n = Z_BUF_ERROR;
}.

(** [readObject]. [fuel] bounds the calls of [uncompress]; [None] means
    [decompressData] has not returned. *)
Definition readObject `{Externals} (fuel : nat) (sha : string) (w : World)
    : option (string * World) :=
  let path := getObjectPath sha in
  if negb (fileExists path w) then
    Some ("", emit (Stderr ("Error: Object " +:+ sha +:+ " not found" +:+ nl)) w)
  else
    let '(compressed, w1) := readFile path w in
    match decompressData fuel compressed with
    | None => None
    | Some (Decoded out) => Some (out, w1)
    | Some DecompressFailed =>
        Some ("", emit (Stderr ("Error: Decompression failed" +:+ nl)) w1)
    end.

(** [parseTree] *)
Definition parseTree `{Externals} (fuel : nat) (treeSha : string) (w : World)
    : option (list TreeEntry * World) :=
  match readObject fuel treeSha w with
  | None => None
  | Some (treeData, w1) =>
      match parseTree_data treeData with
      | None => None
      | Some entries => Some (entries, w1)
      end
  end.


(** The body of [cmdCatFile] after [readObject]: what is written to
    [cout] for the object [data] and the flag character. When the header
    has no space, [spacePos] is [npos], [substr(0, npos)] is the whole
    header and [substr(npos + 1)] is [substr(0)], the whole header too. *)
Definition catFile_data (data : string) (flag : ascii) : list Effect :=
  if Str.empty data then []
  else
    match Str.find NUL data 0 with
    | None => []
    | Some nullPos =>
        let header := Str.substr data 0 nullPos in
        let content := Str.drop (nullPos + 1) data in
        let type :=
          match Str.find SP header 0 with
          | Some spacePos => Str.substr header 0 spacePos
          | None => header
          end in
        let sizeStr :=
          match Str.find SP header 0 with
          | Some spacePos => Str.drop (spacePos + 1) header
          | None => header
          end in
        if Ascii.eqb flag "p" then [Stdout content]
        else if Ascii.eqb flag "s" then [Stdout (sizeStr +:+ nl)]
        else if Ascii.eqb flag "t" then [Stdout (type +:+ nl)]
        else []
    end.


(** An object as the three encoders build it: kind, space, decimal size
    of the payload, null byte, payload. *)
Definition object_of (kind payload : string) : string :=
  kind +:+ " " +:+ Str.to_string (Str.len payload) +:+ string1 NUL +:+ payload.

(** The text a command wrote to [cout]. *)
Definition stdout_text (out : list Effect) : string :=
  foldr (fun e acc => match e with Stdout text => text +:+ acc | _ => acc end)
        "" out.

(** [cmdLog] *)
Definition cmdLog (w : World) : World :=
  if negb (fileExists logPath w) then emit (Stdout ("No commits yet" +:+ nl)) w
  else
    let '(content, w1) := readFile logPath w in
    foldl (fun w' line => emit (Stdout (line +:+ nl)) w') w1 (Str.getlines content).

(** ** Staging *)

(** What the file map does not hold, as the program sees it when a
    command runs: which paths are directories, the names a directory
    lists, and the owner-execute bit of a file. The file map holds the
    regular files. *)
Record Dirs := mkDirs {
  is_directory : string -> bool;
  directory_entries : string -> list string;
  owner_exec : string -> bool;
}.

(** [fs::exists(path)], for a path that may be a directory. *)
Definition pathExists (d : Dirs) (path : string) (w : World) : bool :=
  fileExists path w || is_directory d path.

(** [getPermissions] *)
Definition getPermissions (d : Dirs) (path : string) (w : World) : string :=
  if negb (pathExists d path w) then "100644"
  else if is_directory d path then "040000"
  else if owner_exec d path then "100755"
  else "100644".

(** [writeIndex] *)
Definition writeIndex (entries : list IndexEntry) (w : World) : World :=
  mkWorld (<[indexPath := index_text entries]> (files w))
          (effects w ++ [Wrote indexPath (index_text entries)]).

(** [remove_if] with [e.path == path], then [erase]. *)
Definition index_without (path : string) (index : list IndexEntry)
    : list IndexEntry :=
  List.filter (fun e => negb (String.eqb (ie_path e) path)) index.

(** [addToIndex]. [fuel] bounds the depth of the directories entered;
    [None] means it ran out. *)
Fixpoint addToIndex `{Externals} (d : Dirs) (fuel : nat) (path : string)
    (w : World) : option World :=
  match fuel with
  | 0 => None
  | S fuel' =>
      if negb (pathExists d path w) then
        Some (emit (Stderr ("Error: File " +:+ path +:+ " does not exist" +:+ nl)) w)
      else
        let index := readIndex w in
        if is_directory d path then
          foldl (fun acc name =>
                   match acc with
                   | None => None
                   | Some w' =>
                       if String.eqb name "." || String.eqb name ".."
                          || String.eqb name REPO_DIR
                       then Some w'
                       else
                         let fullPath :=
                           if String.eqb path "." then name
                           else path +:+ "\" +:+ name in
                         addToIndex d fuel' fullPath w'
                   end)
                (Some w) (directory_entries d path)
        else
          let '(sha, w1) := createBlob path w in
          if Str.empty sha then Some w1
          else
            let newEntry := mkIndexEntry path sha (getPermissions d path w1) in
            Some (writeIndex (index_without path index ++ [newEntry]) w1)
  end.

(** [cmdAdd] *)
Definition cmdAdd `{Externals} (d : Dirs) (fuel : nat) (paths : list string)
    (w : World) : option World :=
  foldl (fun acc path =>
           match acc with
           | None => None
           | Some w' => addToIndex d fuel path w'
           end)
        (Some w) paths.

(** [cmdInit]. The directories it creates are not files and leave the
    file map as it is. *)
Definition cmdInit (d : Dirs) (w : World) : World :=
  if pathExists d REPO_DIR w then
    emit (Stdout ("Repository already initialized" +:+ nl)) w
  else
    let w1 := writeFile (REPO_DIR +:+ "\HEAD") ("ref: refs\heads\master" +:+ nl) w in
    let w2 := writeFile (REPO_DIR +:+ "\index") "" w1 in
    emit (Stdout ("Initialized empty repository in " +:+ REPO_DIR +:+ nl)) w2.

(** [cmdHashObject], for a path that is not a directory; the flag
    [write] is not consulted. *)
Definition cmdHashObject `{Externals} (filepath : string) (write : bool)
    (w : World) : World :=
  let '(sha, w1) := createBlob filepath w in
  if negb (Str.empty sha) then emit (Stdout (sha +:+ nl)) w1 else w1.

(** A word as [operator>>] reads it: no white space in it. *)
Definition ws_free (s : string) : bool :=
  Str.all (fun a => negb (Ascii.is_space a)) s.

(** A word that is not empty. *)
Definition token (s : string) : bool := negb (Str.empty s) && ws_free s.

(** The shape of an entry [readIndex] returns: three words, and after an
    empty word only empty words. *)
Definition index_entry_shaped (e : IndexEntry) : bool :=
  ws_free (ie_mode e) && ws_free (ie_sha e) && ws_free (ie_path e)
  && (negb (Str.empty (ie_mode e)) || Str.empty (ie_sha e))
  && (negb (Str.empty (ie_sha e)) || Str.empty (ie_path e)).

(** A lowercase hexadecimal digit. *)
Definition is_hex (a : ascii) : bool :=
  match a with
  | "0" | "1" | "2" | "3" | "4" | "5" | "6" | "7" | "8" | "9"
  | "a" | "b" | "c" | "d" | "e" | "f" => true
  | _ => false
  end%char.

(** The characters [getFilename] cuts at. *)
Definition is_separator (a : ascii) : bool :=
  Ascii.eqb a "\" || Ascii.eqb a "/".

(** The lines joined again, each followed by a newline. *)
Definition join_lines (lines : list string) : string :=
  foldr (fun line acc => line +:+ nl +:+ acc) "" lines.

(** A text that is empty or ends with a newline. *)
Definition terminated (s : string) : bool :=
  Str.empty s || Str.ends_with LF s.

(** The line [writeIndex] writes for an entry, without its newline. *)
Definition index_line (e : IndexEntry) : string :=
  ie_mode e +:+ " " +:+ ie_sha e +:+ " " +:+ ie_path e.

(** No separator in the text. *)
Definition sep_free (s : string) : bool :=
  Str.all (fun a => negb (is_separator a)) s.

(** Empty, or starting with white space: where [operator>>] stops. *)
Definition starts_ws (s : string) : bool :=
  match s with
  | "" => true
  | String a _ => Ascii.is_space a
  end.

(** ** Restoring a tree *)

(** One round of the loop of [restoreTree] for the entry [entry];
    [recurse] is [restoreTree] itself, for a subtree. Creating the
    directories leaves the file map as it is, and the file is taken to
    open. *)
Definition restore_entry `{Externals}
    (recurse : string -> string -> World -> option World)
    (fuel : nat) (prefix : string) (acc : option World) (entry : TreeEntry)
    : option World :=
  match acc with
  | None => None
  | Some w =>
      if Str.empty (te_name entry) then Some w
      else
        let fullPath :=
          if Str.empty prefix then te_name entry
          else prefix +:+ "\" +:+ te_name entry in
        if te_isTree entry then recurse (te_sha entry) fullPath w
        else
          match readObject fuel (te_sha entry) w with
          | None => None
          | Some (blobData, w1) =>
              match blob_content blobData with
              | None => Some w1
              | Some content => Some (writeFile fullPath content w1)
              end
          end
  end.

(** [restoreTree]. [depth] bounds the nesting of the trees and [fuel]
    the calls of [uncompress] for one object; [None] means one of them
    ran out. *)
Fixpoint restoreTree `{Externals} (depth fuel : nat) (treeSha prefix : string)
    (w : World) : option World :=
  match depth with
  | 0 => None
  | S depth' =>
      match parseTree fuel treeSha w with
      | None => None
      | Some (entries, w0) =>
          foldl (restore_entry (restoreTree depth' fuel) fuel prefix)
                (Some w0) entries
      end
  end.

(** The object [sha] is in the store and decodes to [data]. *)
Definition stored `{Externals} (fuel : nat) (w : World) (sha data : string) : Prop :=
  exists z, files w !! getObjectPath sha = Some z
            /\ decompressData fuel z = Some (Decoded data).

(** A tree entry for a file in the directory itself: not a subtree, a
    name that is not empty and holds no separator. *)
Definition file_entry (e : TreeEntry) : bool :=
  negb (te_isTree e) && negb (Str.empty (te_name e)) && sep_free (te_name e).

(** A store with the blob of a file [hello.txt] that holds ["hi"] and
    the tree that lists it. *)
Definition hello_entry : TreeEntry :=
  mkTreeEntry "100644" "hello.txt"
              (@computeSHA1 sample_externals (blob_data "hi")) false.

Definition hello_store : World :=
  @writeObject sample_externals
    (@computeSHA1 sample_externals (tree_data [hello_entry]))
    (tree_data [hello_entry])
    (@writeObject sample_externals
       (@computeSHA1 sample_externals (blob_data "hi")) (blob_data "hi")
       (sample_world "")).

(** * Properties *)

#[local] Arguments String.append : simpl nomatch.

(** ** Facts about the string operations *)

Section StrFacts.

Lemma sapp_nil_r (s : string) : s +:+ "" = s.
Proof. induction s as [|a s IH]; simpl; [done | by rewrite IH]. Qed.

Lemma sapp_assoc (a b c : string) : (a +:+ b) +:+ c = a +:+ b +:+ c.
Proof. induction a as [|x a IH]; simpl; [done | by rewrite IH]. Qed.

Lemma len_app (a b : string) : Str.len (a +:+ b) = Str.len a + Str.len b.
Proof. induction a as [|x a IH]; simpl; [done | by rewrite IH]. Qed.

Lemma all_app p (a b : string) :
  Str.all p (a +:+ b) = Str.all p a && Str.all p b.
Proof.
  induction a as [|x a IH]; simpl; [done|].
  rewrite IH. by rewrite andb_assoc.
Qed.

Lemma all_impl (p q : ascii -> bool) (s : string) :
  (forall a, p a = true -> q a = true) ->
  Str.all p s = true -> Str.all q s = true.
Proof.
  intros Hpq. induction s as [|x s IH]; simpl; [done|].
  intros [Hx Hs]%andb_true_iff. rewrite (Hpq _ Hx). simpl. auto.
Qed.

Lemma lacks_app c (a b : string) :
  Str.lacks c (a +:+ b) = Str.lacks c a && Str.lacks c b.
Proof. apply all_app. Qed.

Lemma find_app_skip c (a b : string) (k : nat) :
  Str.find c (a +:+ b) (Str.len a + k) = Nat.add (Str.len a) <$> Str.find c b k.
Proof.
  induction a as [|x a IH]; simpl.
  - by destruct (Str.find c b k).
  - rewrite IH. by destruct (Str.find c b k).
Qed.

Lemma find_lacks_app c (a b : string) :
  Str.lacks c a = true ->
  Str.find c (a +:+ b) 0 = Nat.add (Str.len a) <$> Str.find c b 0.
Proof.
  unfold Str.lacks. induction a as [|x a IH]; simpl.
  - intros _. by destruct (Str.find c b 0).
  - intros [Hx Ha]%andb_true_iff. apply negb_true_iff in Hx. rewrite Hx.
    rewrite (IH Ha). by destruct (Str.find c b 0).
Qed.

Lemma find_hit c (s : string) : Str.find c (String c s) 0 = Some 0.
Proof. simpl. by rewrite Ascii.eqb_refl. Qed.

Lemma find_lacks c (s : string) (k : nat) :
  Str.lacks c s = true -> Str.find c s k = None.
Proof.
  unfold Str.lacks. revert k. induction s as [|x s IH]; simpl; [done|].
  intros k [Hx Hs]%andb_true_iff. apply negb_true_iff in Hx.
  destruct k; [rewrite Hx|]; by rewrite (IH _ Hs).
Qed.

(** The first [c] of [a ++ c :: b] is at [|a|] when [a] has none. *)
Lemma find_sep c (a b : string) :
  Str.lacks c a = true -> Str.find c (a +:+ String c b) 0 = Some (Str.len a).
Proof.
  intros Ha. rewrite (find_lacks_app _ _ _ Ha), find_hit. simpl.
  by rewrite Nat.add_0_r.
Qed.

Lemma find_ge c (s : string) (pos i : nat) :
  Str.find c s pos = Some i -> pos <= i < Str.len s.
Proof.
  revert pos i. induction s as [|x s IH]; simpl; [done|].
  intros [|pos] i.
  - destruct (Ascii.eqb x c); [intros [= <-]; lia|].
    destruct (Str.find c s 0) eqn:E; simpl; [|done].
    intros [= <-]. apply IH in E. lia.
  - destruct (Str.find c s pos) eqn:E; simpl; [|done].
    intros [= <-]. apply IH in E. lia.
Qed.

Lemma drop_app (a b : string) (k : nat) :
  Str.drop (Str.len a + k) (a +:+ b) = Str.drop k b.
Proof. induction a as [|x a IH]; simpl; [done | by rewrite IH]. Qed.

Lemma drop_len_app (a b : string) : Str.drop (Str.len a) (a +:+ b) = b.
Proof. by rewrite <- (Nat.add_0_r (Str.len a)), drop_app. Qed.

Lemma take_len_app (a b : string) : Str.take (Str.len a) (a +:+ b) = a.
Proof. induction a as [|x a IH]; simpl; [by destruct b | by rewrite IH]. Qed.

Lemma substr_app (a b : string) (k n : nat) :
  Str.substr (a +:+ b) (Str.len a + k) n = Str.substr b k n.
Proof. unfold Str.substr. by rewrite drop_app. Qed.

Lemma substr_prefix (a b : string) : Str.substr (a +:+ b) 0 (Str.len a) = a.
Proof. unfold Str.substr. simpl. apply take_len_app. Qed.

Lemma empty_iff (s : string) : Str.empty s = true <-> s = "".
Proof. by destruct s. Qed.

(** Decimal renderings consist of digits. *)
Lemma uint_digits (d : Decimal.uint) :
  Str.all Str.is_digit (NilEmpty.string_of_uint d) = true.
Proof. induction d; simpl; auto. Qed.

Lemma to_string_digits (n : nat) : Str.all Str.is_digit (Str.to_string n) = true.
Proof.
  unfold Str.to_string, NilZero.string_of_uint.
  destruct (Nat.to_uint n) eqn:E; try (rewrite <- E; apply uint_digits); done.
Qed.

Lemma digits_lack (c : ascii) (s : string) :
  Str.is_digit c = false -> Str.all Str.is_digit s = true -> Str.lacks c s = true.
Proof.
  intros Hc. apply all_impl. intros a Ha.
  apply negb_true_iff, Ascii.eqb_neq. intros ->. congruence.
Qed.

(** An object header [kind ++ decimal size] holds no null byte, and the
    payload starts right after the first one. *)
Lemma header_split (kind : string) (n : nat) (payload : string) :
  Str.lacks NUL kind = true ->
  Str.find NUL (kind +:+ Str.to_string n +:+ string1 NUL +:+ payload) 0
  = Some (Str.len (kind +:+ Str.to_string n)).
Proof.
  intros Hk. rewrite <- sapp_assoc. apply find_sep.
  rewrite lacks_app, Hk. simpl.
  apply digits_lack; [done | apply to_string_digits].
Qed.

Lemma header_drop (kind : string) (n : nat) (payload : string) :
  Str.drop (Str.len (kind +:+ Str.to_string n) + 1)
           (kind +:+ Str.to_string n +:+ string1 NUL +:+ payload) = payload.
Proof.
  rewrite <- sapp_assoc. rewrite drop_app. done.
Qed.

End StrFacts.

(** ** Blob round trip *)

(** C1. For every file content [c], the blob serialization is
    ["blob " + decimal length + NUL + c], and stripping everything through
    the first null byte gives back exactly [c]. *)
Theorem blob_round_trip (c : string) :
  blob_data c = "blob " +:+ Str.to_string (Str.len c) +:+ String NUL c
  /\ blob_content (blob_data c) = Some c.
Proof.
  split; [done|].
  unfold blob_content, blob_data.
  rewrite header_split by done.
  by rewrite header_drop.
Qed.

(** ** Tree decoding *)

Section ParseTree.

(** The loop returns: every round moves [pos] forward. *)
Lemma parseTree_loop_total (fuel : nat) (treeData : string) (pos : nat)
    (entries : list TreeEntry) :
  Str.len treeData - pos < fuel ->
  exists es, parseTree_loop fuel treeData pos entries = Some es.
Proof.
  revert pos entries. induction fuel as [|fuel IH]; intros pos entries Hf; [lia|].
  simpl. destruct (Nat.ltb_spec pos (Str.len treeData)) as [Hlt|Hge]; simpl; [|eauto].
  destruct (Str.find SP treeData pos) as [spacePos|] eqn:Esp; [|eauto].
  destruct (Str.find NUL treeData (spacePos + 1)) as [nullPos2|] eqn:Enul; [|eauto].
  destruct (Nat.ltb_spec (Str.len treeData) (nullPos2 + 1 + 40)); [eauto|].
  apply IH. apply find_ge in Esp, Enul. lia.
Qed.

Lemma parseTree_data_total (treeData : string) :
  exists es, parseTree_data treeData = Some es.
Proof.
  unfold parseTree_data. destruct (Str.empty treeData); [eauto|].
  destruct (Str.find NUL treeData 0); [|eauto].
  apply parseTree_loop_total. lia.
Qed.

(** More fuel does not change a result. *)
Lemma parseTree_loop_fuel (fuel extra : nat) (treeData : string) (pos : nat)
    (entries es : list TreeEntry) :
  parseTree_loop fuel treeData pos entries = Some es ->
  parseTree_loop (fuel + extra) treeData pos entries = Some es.
Proof.
  revert pos entries. induction fuel as [|fuel IH]; intros pos entries; [done|].
  simpl. destruct (negb _); [done|].
  destruct (Str.find SP treeData pos); [|done].
  destruct (Str.find NUL treeData _); [|done].
  destruct (Nat.ltb _ _); [done|]. apply IH.
Qed.

(** With enough fuel the result is the one of [parseTree_data]'s fuel. *)
Lemma parseTree_loop_enough (fuel : nat) (treeData : string) (pos : nat)
    (entries es : list TreeEntry) :
  parseTree_loop fuel treeData pos entries = Some es ->
  pos <= Str.len treeData ->
  parseTree_loop (S (Str.len treeData)) treeData pos entries = Some es.
Proof.
  intros Hrun Hpos.
  destruct (parseTree_loop_total (S (Str.len treeData)) treeData pos entries)
    as [es' Hes']; [lia|].
  rewrite Hes'. f_equal.
  apply (parseTree_loop_fuel _ (S (Str.len treeData))) in Hrun.
  apply (parseTree_loop_fuel _ fuel) in Hes'.
  rewrite Nat.add_comm in Hes'. congruence.
Qed.

(** The loop does not look before [pos]: a prefix only shifts the
    positions. *)
Lemma parseTree_loop_shift (fuel : nat) (pre s : string) (k : nat)
    (entries : list TreeEntry) :
  parseTree_loop fuel (pre +:+ s) (Str.len pre + k) entries
  = parseTree_loop fuel s k entries.
Proof.
  revert k entries. induction fuel as [|fuel IH]; intros k entries; [done|].
  simpl. rewrite len_app.
  replace (Nat.ltb (Str.len pre + k) (Str.len pre + Str.len s))
    with (Nat.ltb k (Str.len s))
    by (destruct (Nat.ltb_spec k (Str.len s)), (Nat.ltb_spec (Str.len pre + k)
          (Str.len pre + Str.len s)); done || lia).
  destruct (negb _); [done|].
  rewrite find_app_skip. destruct (Str.find SP s k) as [sp|]; simpl; [|done].
  replace (Str.len pre + sp + 1) with (Str.len pre + (sp + 1)) by lia.
  rewrite find_app_skip. destruct (Str.find NUL s (sp + 1)) as [np|]; simpl; [|done].
  replace (Nat.ltb (Str.len pre + Str.len s) (Str.len pre + np + 1 + 40))
    with (Nat.ltb (Str.len s) (np + 1 + 40))
    by (destruct (Nat.ltb_spec (Str.len s) (np + 1 + 40)),
          (Nat.ltb_spec (Str.len pre + Str.len s) (Str.len pre + np + 1 + 40));
        done || lia).
  destruct (Nat.ltb _ _); [done|].
  rewrite !substr_app.
  replace (Str.len pre + np + 1) with (Str.len pre + (np + 1)) by lia.
  rewrite substr_app.
  replace (Str.len pre + (np + 1) + 40) with (Str.len pre + (np + 1 + 40)) by lia.
  rewrite IH.
  replace (Str.len pre + sp - (Str.len pre + k)) with (sp - k) by lia.
  replace (Str.len pre + np - (Str.len pre + (sp + 1))) with (np - (sp + 1)) by lia.
  done.
Qed.

(** One round over a well-formed record. *)
Lemma parseTree_loop_record (fuel : nat) (mode name sha rest : string)
    (entries : list TreeEntry) :
  record_ok mode name sha = true ->
  parseTree_loop (S fuel) (tree_record mode name sha +:+ rest) 0 entries
  = parseTree_loop fuel rest 0
      (entries ++ [mkTreeEntry mode name sha (String.eqb mode "040000")]).
Proof.
  unfold record_ok. intros [[Hm Hn]%andb_true_iff Hs%Nat.eqb_eq]%andb_true_iff.
  unfold tree_record. rewrite !sapp_assoc.
  change (" " +:+ name +:+ string1 NUL +:+ sha +:+ rest)
    with (String SP (name +:+ String NUL (sha +:+ rest))).
  set (tail := name +:+ String NUL (sha +:+ rest)).
  set (data := mode +:+ String SP tail).
  assert (Hlen : Str.len data = Str.len mode + 1 + Str.len name + 1 + 40 + Str.len rest).
  { unfold data, tail. rewrite len_app. simpl. rewrite len_app. simpl.
    rewrite len_app. lia. }
  cbn [parseTree_loop].
  destruct (Nat.ltb_spec 0 (Str.len data)) as [_|]; [|lia]. simpl negb. cbv iota.
  unfold data at 1. rewrite (find_sep _ _ _ Hm).
  assert (Hd1 : data = (mode +:+ string1 SP) +:+ tail).
  { unfold data. by rewrite sapp_assoc. }
  assert (Hl1 : Str.len (mode +:+ string1 SP) = Str.len mode + 1).
  { rewrite len_app. simpl. lia. }
  rewrite <- Hl1. rewrite <- (Nat.add_0_r (Str.len (mode +:+ string1 SP))).
  rewrite Hd1 at 1. rewrite find_app_skip.
  unfold tail at 1. rewrite (find_sep _ _ _ Hn). simpl fmap.
  rewrite ?Nat.add_0_r, !Hl1.
  destruct (Nat.ltb_spec (Str.len data) (Str.len mode + 1 + Str.len name + 1 + 40));
    [lia|].
  assert (Emode : Str.substr data 0 (Str.len mode - 0) = mode).
  { rewrite Nat.sub_0_r. apply substr_prefix. }
  assert (Ename : Str.substr data (Str.len mode + 1)
                    (Str.len mode + 1 + Str.len name - (Str.len mode + 1)) = name).
  { replace (Str.len mode + 1 + Str.len name - (Str.len mode + 1))
      with (Str.len name) by lia.
    rewrite <- Hl1, <- (Nat.add_0_r (Str.len (mode +:+ string1 SP))).
    rewrite Hd1, substr_app. apply substr_prefix. }
  assert (Hd2 : data = (mode +:+ string1 SP +:+ name +:+ string1 NUL) +:+ sha +:+ rest).
  { unfold data, tail. by rewrite !sapp_assoc. }
  assert (Hl2 : Str.len mode + 1 + Str.len name + 1
                = Str.len (mode +:+ string1 SP +:+ name +:+ string1 NUL)).
  { rewrite !len_app. simpl. lia. }
  assert (Esha : Str.substr data (Str.len mode + 1 + Str.len name + 1) 40 = sha).
  { rewrite Hl2. rewrite <- (Nat.add_0_r (Str.len _)), Hd2, substr_app.
    rewrite <- Hs. apply substr_prefix. }
  rewrite Emode, Ename, Esha.
  replace (Str.len mode + 1 + Str.len name + 1 + 40)
    with (Str.len (mode +:+ string1 SP +:+ name +:+ string1 NUL +:+ sha) + 0)
    by (rewrite !len_app; simpl; lia).
  assert (Hd3 : data = (mode +:+ string1 SP +:+ name +:+ string1 NUL +:+ sha) +:+ rest).
  { unfold data, tail. by rewrite !sapp_assoc. }
  rewrite Hd3. apply parseTree_loop_shift.
Qed.

End ParseTree.

Section ParseTreeObjects.

Lemma tree_body_cons (e : TreeEntry) (es : list TreeEntry) :
  tree_body (e :: es)
  = tree_record (te_mode e) (te_name e) (te_sha e) +:+ tree_body es.
Proof. done. Qed.

Lemma entry_ok_canonical (e : TreeEntry) :
  entry_ok e = true ->
  mkTreeEntry (te_mode e) (te_name e) (te_sha e) (String.eqb (te_mode e) "040000") = e.
Proof.
  unfold entry_ok. intros [_ Hflag%Bool.eqb_prop]%andb_true_iff.
  destruct e as [m n s t]. simpl in *. by rewrite Hflag.
Qed.

(** The loop reads a body of well-formed records entry by entry. *)
Lemma parseTree_loop_body (es : list TreeEntry) (fuel : nat) (rest : string)
    (entries : list TreeEntry) :
  forallb entry_ok es = true ->
  parseTree_loop (length es + fuel) (tree_body es +:+ rest) 0 entries
  = parseTree_loop fuel rest 0 (entries ++ es).
Proof.
  revert entries. induction es as [|e es IH]; intros entries Hok.
  - simpl. by rewrite List.app_nil_r.
  - simpl in Hok. apply andb_true_iff in Hok as [He Hes].
    rewrite tree_body_cons, sapp_assoc. cbn [length Nat.add].
    rewrite parseTree_loop_record
      by (unfold entry_ok in He; by apply andb_true_iff in He as [? _]).
    rewrite (entry_ok_canonical _ He), (IH _ Hes).
    by rewrite <- List.app_assoc.
Qed.

(** The loop stops at a partial record and keeps what it has. *)
Lemma parseTree_loop_partial (fuel : nat) (rest : string) (entries : list TreeEntry) :
  rest = "" \/ partial_record rest ->
  parseTree_loop (S fuel) rest 0 entries = Some entries.
Proof.
  intros [->|Hp]; [done|].
  destruct Hp as [part Hne Hsp | mode part Hm Hp | mode name part Hm Hn Hlen].
  - cbn [parseTree_loop]. destruct part; [done|].
    change (negb (0 <? Str.len (String a part))) with false. cbv iota.
    by rewrite find_lacks.
  - change (mode +:+ " " +:+ part) with (mode +:+ String SP part).
    cbn [parseTree_loop].
    destruct (Nat.ltb_spec 0 (Str.len (mode +:+ String SP part))) as [_|H];
      [|rewrite len_app in H; simpl in H; lia].
    simpl negb. cbv iota. rewrite (find_sep _ _ _ Hm).
    replace (mode +:+ String SP part) with ((mode +:+ string1 SP) +:+ part)
      by (by rewrite sapp_assoc).
    replace (Str.len mode + 1) with (Str.len (mode +:+ string1 SP) + 0)
      by (rewrite len_app; simpl; lia).
    rewrite find_app_skip. by rewrite find_lacks.
  - change (mode +:+ " " +:+ name +:+ string1 NUL +:+ part)
      with (mode +:+ String SP (name +:+ String NUL part)).
    set (data := mode +:+ String SP (name +:+ String NUL part)).
    assert (Hl : Str.len data = Str.len mode + 1 + Str.len name + 1 + Str.len part).
    { unfold data. rewrite len_app. simpl. rewrite len_app. simpl. lia. }
    cbn [parseTree_loop].
    destruct (Nat.ltb_spec 0 (Str.len data)) as [_|]; [|lia].
    simpl negb. cbv iota. unfold data at 1. rewrite (find_sep _ _ _ Hm).
    assert (Hd : data = (mode +:+ string1 SP) +:+ name +:+ String NUL part).
    { unfold data. by rewrite sapp_assoc. }
    replace (Str.len mode + 1) with (Str.len (mode +:+ string1 SP) + 0)
      by (rewrite len_app; simpl; lia).
    rewrite Hd at 1. rewrite find_app_skip, (find_sep _ _ _ Hn). simpl fmap.
    rewrite len_app. simpl Str.len.
    destruct (Nat.ltb_spec (Str.len data)
                (Str.len mode + 1 + Str.len name + 1 + 40)); [done | lia].
Qed.

(** [parseTree] on an object whose body is well-formed records followed
    by nothing or by a partial record. *)
Lemma parseTree_data_body (n : nat) (es : list TreeEntry) (rest : string) :
  forallb entry_ok es = true ->
  rest = "" \/ partial_record rest ->
  parseTree_data (tree_object_sized n (tree_body es +:+ rest)) = Some es.
Proof.
  intros Hok Hrest. unfold parseTree_data, tree_object_sized.
  change (Str.empty _) with false. cbv iota.
  rewrite header_split by done.
  set (header := "tree " +:+ Str.to_string n).
  set (body := tree_body es +:+ rest).
  replace ("tree " +:+ Str.to_string n +:+ string1 NUL +:+ body)
    with ((header +:+ string1 NUL) +:+ body)
    by (unfold header; by rewrite !sapp_assoc).
  assert (Hpos : Str.len header + 1 = Str.len (header +:+ string1 NUL) + 0).
  { rewrite len_app. simpl. lia. }
  apply (parseTree_loop_enough (length es + 1)).
  - rewrite Hpos, parseTree_loop_shift. unfold body.
    rewrite (parseTree_loop_body _ _ _ _ Hok).
    by apply parseTree_loop_partial.
  - rewrite !len_app. simpl. lia.
Qed.

Lemma index_tree_body_eq (index : list IndexEntry) :
  index_tree_body index = tree_body (map entry_of_index index).
Proof. induction index as [|e index IH]; simpl; [done | by rewrite IH]. Qed.

Lemma index_entries_ok (index : list IndexEntry) :
  forallb index_entry_ok index = true ->
  forallb entry_ok (map entry_of_index index) = true.
Proof.
  induction index as [|e index IH]; simpl; [done|].
  intros [He Hi]%andb_true_iff. rewrite (IH Hi), andb_true_r.
  unfold entry_ok, entry_of_index. simpl.
  unfold index_entry_ok in He. rewrite He. simpl. apply Bool.eqb_reflx.
Qed.

(** What [parseTree] reads back from the tree [createTreeFromIndex]
    writes: one entry per index entry, in the order of the index. *)
Lemma parseTree_index_tree (index : list IndexEntry) :
  forallb index_entry_ok index = true ->
  parseTree_data (index_tree_data index) = Some (map entry_of_index index).
Proof.
  intros Hok. unfold index_tree_data, tree_object.
  rewrite index_tree_body_eq.
  rewrite <- (sapp_nil_r (tree_body _)) at 2.
  apply (parseTree_data_body _ _ "" (index_entries_ok _ Hok)). by left.
Qed.

End ParseTreeObjects.

(** ** The tree built from the index *)

(** C2. On the index that lists [b.txt] before [a.txt], the tree written
    at commit time keeps for each entry the terminal path component, the
    mode and the digest, but the entries stay in the order of the index:
    [b.txt] comes before [a.txt], so they are not sorted by name. *)
Theorem index_tree_not_sorted :
  let w := sample_world (index_text index_b_a) in
  let '(sha, w') := @createTreeFromIndex sample_externals w in
  readIndex w = index_b_a
  /\ effects w' = [Wrote (getObjectPath sha) (String "x" (index_tree_data index_b_a))]
  /\ parseTree_data (index_tree_data index_b_a) = Some [entry_b; entry_a]
  /\ names_increasing [entry_b; entry_a] = false.
Proof. vm_compute. repeat split. Qed.

(** C6, as the code has it. For every tree object whose body is a run of
    well-formed records followed by a partial record (cut in the mode, in
    the name, or with fewer than forty digest bytes), [parseTree] stops at
    the partial record and returns the entries read before it. *)
Theorem parseTree_partial_record (n : nat) (es : list TreeEntry) (rest : string) :
  forallb entry_ok es = true ->
  partial_record rest ->
  parseTree_data (tree_object_sized n (tree_body es +:+ rest)) = Some es.
Proof. intros Hok Hrest. apply parseTree_data_body; auto. Qed.

Lemma parseTree_partial_record_witness :
  forallb entry_ok [entry_b] = true
  /\ partial_record ("100644" +:+ " " +:+ "a.t")
  /\ parseTree_data
       (tree_object_sized 62 (tree_body [entry_b] +:+ "100644" +:+ " " +:+ "a.t"))
     = Some [entry_b].
Proof.
  split; [reflexivity|]. split; [apply cut_in_name; reflexivity|].
  apply (parseTree_partial_record 62 [entry_b] ("100644" +:+ " " +:+ "a.t")).
  - reflexivity.
  - apply cut_in_name; reflexivity.
Defined.

(** C6, as stated, fails: the tree of [a.txt] and [b.txt] with the last
    ten digest bytes lost is decoded to the entry of [a.txt], not to a
    failure (the failure returns of [parseTree] hold no entry). *)
Lemma parseTree_truncated_returns_prefix :
  partial_record ("100644" +:+ " " +:+ "b.txt" +:+ string1 NUL
                  +:+ "bbbbbbbbbbbbbbbbbbbbbbbbbbbbbb")
  /\ parseTree_data truncated_tree = Some [entry_a]
  /\ parseTree_data truncated_tree <> Some [].
Proof.
  split; [apply cut_in_sha; [reflexivity | reflexivity | simpl; lia]|].
  split; [vm_compute; reflexivity | vm_compute; discriminate].
Qed.

(** C7, as the code has it. For every list of well-formed tree entries in
    which two entries have the same name, the encoding loop produces a
    tree object that holds every entry, the duplicates included, in the
    order given. *)
Theorem tree_data_keeps_duplicates (es : list TreeEntry) :
  forallb entry_ok es = true ->
  ~ NoDup (map te_name es) ->
  parseTree_data (tree_data es) = Some es.
Proof.
  intros Hok _.
  unfold tree_data, tree_object.
  rewrite <- (sapp_nil_r (tree_body es)) at 2.
  apply (parseTree_data_body _ _ "" Hok). by left.
Qed.

Lemma tree_data_keeps_duplicates_witness :
  forallb entry_ok (map entry_of_index index_collide) = true
  /\ ~ NoDup (map te_name (map entry_of_index index_collide))
  /\ parseTree_data (tree_data (map entry_of_index index_collide))
     = Some (map entry_of_index index_collide).
Proof.
  assert (Hdup : ~ NoDup (map te_name (map entry_of_index index_collide))).
  { intros H. inversion H as [|x l Hx _]; subst. apply Hx. vm_compute. left. }
  split; [reflexivity|]. split; [exact Hdup|].
  apply (tree_data_keeps_duplicates (map entry_of_index index_collide)).
  - reflexivity.
  - exact Hdup.
Defined.

(** C7, as stated, fails: with [sub\x.txt] and [x.txt] staged,
    [createTreeFromIndex] returns a digest and writes a tree object with
    two entries named [x.txt]. *)
Lemma createTreeFromIndex_duplicate_names :
  let w := sample_world (index_text index_collide) in
  let '(sha, w') := @createTreeFromIndex sample_externals w in
  readIndex w = index_collide
  /\ sha <> ""
  /\ effects w'
     = [Wrote (getObjectPath sha) (String "x" (index_tree_data index_collide))]
  /\ (map te_name <$> parseTree_data (index_tree_data index_collide))
     = Some ["x.txt"; "x.txt"].
Proof. vm_compute. repeat split; discriminate. Qed.

(** ** Commit encoding and decoding *)

Section Commits.

Lemma getlines_line (line rest : string) :
  Str.lacks LF line = true ->
  Str.getlines (line +:+ String LF rest) = line :: Str.getlines rest.
Proof.
  unfold Str.lacks. induction line as [|a line IH]; simpl; [done|].
  intros [Ha Hl]%andb_true_iff. apply negb_true_iff in Ha.
  rewrite Ha. by rewrite (IH Hl).
Qed.

Lemma getlines_nl (line rest : string) :
  Str.lacks LF line = true ->
  Str.getlines (line +:+ nl +:+ rest) = line :: Str.getlines rest.
Proof. apply getlines_line. Qed.

Lemma of_Z_chars (z : Z) : Str.all is_signed_digit (Str.of_Z z) = true.
Proof.
  assert (Hu : forall d, Str.all is_signed_digit (NilZero.string_of_uint d) = true).
  { intros d. apply (all_impl Str.is_digit).
    - intros a Ha. unfold is_signed_digit. by rewrite Ha.
    - unfold NilZero.string_of_uint.
      destruct d eqn:E; try (rewrite <- E; apply uint_digits); done. }
  unfold Str.of_Z, NilZero.string_of_int.
  destruct (Z.to_int z); [apply Hu|]. simpl. apply Hu.
Qed.

Lemma of_Z_lacks (c : ascii) (z : Z) :
  is_signed_digit c = false -> Str.lacks c (Str.of_Z z) = true.
Proof.
  intros Hc. apply (all_impl is_signed_digit); [|apply of_Z_chars].
  intros a Ha. apply negb_true_iff, Ascii.eqb_neq. intros ->. congruence.
Qed.

(** The last [c] of [a ++ c :: b] is at [|a|] when [b] has none. *)
Lemma rfind_sep (c : ascii) (a b : string) :
  Str.lacks c b = true ->
  Str.rfind c (a +:+ String c b) = Some (Str.len a).
Proof.
  intros Hb. unfold Str.rfind.
  assert (Hnone : Str.find_last_of [c] b = None).
  { revert Hb. unfold Str.lacks. induction b as [|x b IH]; simpl; [done|].
    intros [Hx Hb]%andb_true_iff. rewrite (IH Hb).
    apply negb_true_iff, Ascii.eqb_neq in Hx.
    rewrite bool_decide_eq_false_2; [done|].
    by intros ->%list_elem_of_singleton. }
  induction a as [|x a IH]; simpl.
  - rewrite Hnone. rewrite bool_decide_eq_true_2; [done|].
    by apply list_elem_of_singleton.
  - by rewrite IH.
Qed.

Lemma identity_line_lacks_LF (now : Z) : Str.lacks LF (identity_line now) = true.
Proof.
  unfold identity_line. rewrite !lacks_app, of_Z_lacks by done. done.
Qed.

(** The lines of the commit text. *)
Lemma commit_content_lines (treeSha parentSha message : string) (now : Z) :
  Str.lacks LF treeSha = true ->
  Str.lacks LF parentSha = true ->
  Str.getlines (commit_content treeSha parentSha message now)
  = ("tree " +:+ treeSha)
      :: (if has_parent parentSha then ["parent " +:+ parentSha] else [])
      ++ ("author " +:+ identity_line now)
      :: ("committer " +:+ identity_line now)
      :: "" :: Str.getlines (message +:+ nl).
Proof.
  intros Ht Hp. unfold commit_content.
  pose proof (identity_line_lacks_LF now) as Hid.
  assert (Hrest :
    Str.getlines ("author User <user@example.com> " +:+ Str.of_Z now +:+ " +0000"
                  +:+ nl +:+ "committer User <user@example.com> "
                  +:+ Str.of_Z now +:+ " +0000" +:+ nl +:+ nl +:+ message +:+ nl)
    = ("author " +:+ identity_line now)
        :: ("committer " +:+ identity_line now)
        :: "" :: Str.getlines (message +:+ nl)).
  { replace ("author User <user@example.com> " +:+ Str.of_Z now +:+ " +0000"
             +:+ nl +:+ "committer User <user@example.com> "
             +:+ Str.of_Z now +:+ " +0000" +:+ nl +:+ nl +:+ message +:+ nl)
      with ("author " +:+ identity_line now +:+ nl +:+ "committer "
            +:+ identity_line now +:+ nl +:+ nl +:+ message +:+ nl)
      by (unfold identity_line; by rewrite !sapp_assoc).
    rewrite <- (sapp_assoc "author "), getlines_nl
      by (rewrite lacks_app, Hid; done).
    rewrite <- (sapp_assoc "committer "), getlines_nl
      by (rewrite lacks_app, Hid; done).
    change (nl +:+ message +:+ nl) with ("" +:+ nl +:+ message +:+ nl).
    by rewrite getlines_nl. }
  rewrite <- (sapp_assoc "tree "), getlines_nl by (rewrite lacks_app, Ht; done).
  f_equal. destruct (has_parent parentSha).
  - rewrite !sapp_assoc. rewrite <- (sapp_assoc "parent "), getlines_nl
      by (rewrite lacks_app, Hp; done).
    simpl. f_equal. apply Hrest.
  - apply Hrest.
Qed.

Lemma has_parent_iff (parentSha : string) :
  has_parent parentSha = true <-> parentSha <> "" /\ parentSha <> ZERO_SHA.
Proof.
  unfold has_parent. rewrite andb_true_iff, !negb_true_iff.
  rewrite String.eqb_neq. destruct parentSha; simpl; split; intros [? ?]; done.
Qed.

Lemma commit_header_lines (treeSha parentSha message : string) (now : Z) :
  Str.lacks LF treeSha = true ->
  Str.lacks LF parentSha = true ->
  commit_header treeSha parentSha message now
  = ("tree " +:+ treeSha)
      :: (if has_parent parentSha then ["parent " +:+ parentSha] else [])
      ++ ["author " +:+ identity_line now; "committer " +:+ identity_line now].
Proof.
  intros Ht Hp. unfold commit_header.
  rewrite commit_content_lines by done.
  destruct (has_parent parentSha); reflexivity.
Qed.

Lemma parse_tree_line (info : CommitInfo) (treeSha : string) :
  parse_header_line info ("tree " +:+ treeSha)
  = mkCommitInfo treeSha (ci_parentSha info) (ci_author info)
                 (ci_committer info) (ci_message info) (ci_timestamp info).
Proof. reflexivity. Qed.

Lemma parse_parent_line (info : CommitInfo) (parentSha : string) :
  parse_header_line info ("parent " +:+ parentSha)
  = mkCommitInfo (ci_treeSha info) parentSha (ci_author info)
                 (ci_committer info) (ci_message info) (ci_timestamp info).
Proof. reflexivity. Qed.

Lemma parse_author_line (info : CommitInfo) (author : string) :
  parse_header_line info ("author " +:+ author)
  = mkCommitInfo (ci_treeSha info) (ci_parentSha info) author
                 (ci_committer info) (ci_message info) (ci_timestamp info).
Proof. reflexivity. Qed.

(** The committer line: [rfind(' ')] lands before the time-zone offset,
    the last token of the line. *)
Lemma parse_committer_line (info : CommitInfo) (now : Z) :
  parse_header_line info ("committer " +:+ identity_line now)
  = mkCommitInfo (ci_treeSha info) (ci_parentSha info) (ci_author info)
                 (identity_line now) (ci_message info) "+0000".
Proof.
  change (parse_header_line info ("committer " +:+ identity_line now))
    with (mkCommitInfo (ci_treeSha info) (ci_parentSha info) (ci_author info)
            (identity_line now) (ci_message info)
            (match Str.rfind SP (identity_line now) with
             | Some timePos => Str.drop (timePos + 1) (identity_line now)
             | None => ci_timestamp info
             end)).
  f_equal. unfold identity_line. rewrite <- sapp_assoc.
  change (" +0000") with (String SP "+0000").
  rewrite rfind_sep by done. by rewrite drop_app.
Qed.

(** A decimal rendering is never the text ["+0000"]. *)
Lemma of_Z_not_offset (now : Z) : Str.of_Z now <> "+0000".
Proof.
  intros H. pose proof (of_Z_chars now) as Hc. rewrite H in Hc. discriminate.
Qed.

End Commits.

(** C4. The text of a commit has a header line ["parent <digest>"]
    exactly when the parent digest handed to [createCommit] is not empty
    and is not the all-zero digest; no other header line starts with
    ["parent "]. *)
Theorem parent_line_iff (treeSha parentSha message : string) (now : Z) :
  Str.lacks LF treeSha = true ->
  Str.lacks LF parentSha = true ->
  let header := commit_header treeSha parentSha message now in
  (In ("parent " +:+ parentSha) header <-> parentSha <> "" /\ parentSha <> ZERO_SHA)
  /\ (forall line, In line header -> starts_with "parent " line = true ->
      line = "parent " +:+ parentSha /\ parentSha <> "" /\ parentSha <> ZERO_SHA).
Proof.
  intros Ht Hp header. unfold header. rewrite commit_header_lines by done.
  rewrite <- has_parent_iff.
  destruct (has_parent parentSha) eqn:E; simpl.
  - split; [split; auto|].
    intros line [<-|[<-|[<-|[<-|[]]]]] Hs; try discriminate Hs.
    split; [done | by apply has_parent_iff].
  - split.
    + split; [|done]. intros [H|[H|[H|[]]]]; discriminate H.
    + intros line [<-|[<-|[<-|[]]]] Hs; discriminate Hs.
Qed.

Lemma parent_line_iff_witness :
  Str.lacks LF sha_a = true /\ Str.lacks LF sha_b = true
  /\ (In ("parent " +:+ sha_b) (commit_header sha_a sha_b "second" 1700000000)
      <-> sha_b <> "" /\ sha_b <> ZERO_SHA).
Proof.
  split; [reflexivity|]. split; [reflexivity|].
  apply (parent_line_iff sha_a sha_b "second" 1700000000); reflexivity.
Defined.

(** C8. For every commit [createCommit] writes, [parseCommit] returns as
    the timestamp the last token of the committer line, and that token
    is the time-zone offset ["+0000"], not the seconds that precede it. *)
Theorem parseCommit_timestamp_is_offset (treeSha parentSha message : string)
    (now : Z) :
  Str.lacks LF treeSha = true ->
  Str.lacks LF parentSha = true ->
  let info := parseCommit_data (commit_data treeSha parentSha message now) in
  ci_committer info = "User <user@example.com> " +:+ Str.of_Z now +:+ " +0000"
  /\ ci_timestamp info = "+0000"
  /\ ci_timestamp info <> Str.of_Z now.
Proof.
  intros Ht Hp info.
  assert (Hinfo : ci_committer info = identity_line now /\ ci_timestamp info = "+0000").
  { unfold info, parseCommit_data, commit_data, commit_object.
    change (Str.empty _) with false. cbv iota.
    rewrite header_split, header_drop by done.
    rewrite commit_content_lines by done.
    cbn [parse_header]. change (Str.empty ("tree " +:+ treeSha)) with false.
    cbv iota. rewrite parse_tree_line.
    destruct (has_parent parentSha); cbn [app parse_header].
    - change (Str.empty ("parent " +:+ parentSha)) with false.
      change (Str.empty ("author " +:+ identity_line now)) with false.
      change (Str.empty ("committer " +:+ identity_line now)) with false.
      cbv iota. rewrite parse_parent_line, parse_author_line, parse_committer_line.
      done.
    - change (Str.empty ("author " +:+ identity_line now)) with false.
      change (Str.empty ("committer " +:+ identity_line now)) with false.
      cbv iota. rewrite parse_author_line, parse_committer_line.
      done. }
  destruct Hinfo as [Hc Hts]. rewrite Hts. repeat split; [done|].
  intros H. by apply (of_Z_not_offset now).
Qed.

Lemma parseCommit_timestamp_is_offset_witness :
  Str.lacks LF sha_a = true /\ Str.lacks LF "" = true
  /\ ci_timestamp (parseCommit_data (commit_data sha_a "" "first" 1700000000))
     = "+0000".
Proof.
  split; [reflexivity|]. split; [reflexivity|].
  apply (parseCommit_timestamp_is_offset sha_a "" "first" 1700000000); reflexivity.
Defined.

(** ** The commit command *)

Section CmdCommit.

Context {E : Externals}.

Lemma hex2_len (b : byte) (acc : string) : Str.len (hex2 b +:+ acc) = 2 + Str.len acc.
Proof. done. Qed.

Lemma computeSHA1_len (data : string) :
  Str.len (computeSHA1 data) = 2 * length (SHA1 data).
Proof.
  unfold computeSHA1. induction (SHA1 data) as [|b l IH]; [done|].
  cbn [foldr length]. rewrite hex2_len, IH. lia.
Qed.

(** A digest is never the empty string. *)
Lemma computeSHA1_not_empty `{!ExternalsOk E} (data : string) :
  Str.empty (computeSHA1 data) = false.
Proof.
  pose proof (computeSHA1_len data) as H. rewrite SHA1_length in H.
  by destruct (computeSHA1 data).
Qed.

Lemma writeObject_writes `{!ExternalsOk E} (sha content : string) (w : World) :
  exists compressed,
    zlib_compress (uLong_prefix content) = Some compressed
    /\ writeObject sha content w = writeFile (getObjectPath sha) compressed w.
Proof.
  destruct (zlib_compress_ok (uLong_prefix content)) as (c & Hc & Hne).
  exists c. split; [done|]. unfold writeObject, compressData. rewrite Hc.
  by destruct c.
Qed.

Lemma readFile_present (path content : string) (w : World) :
  files w !! path = Some content -> readFile path w = (content, w).
Proof. intros H. unfold readFile. by rewrite H. Qed.

(** [getHEAD] only reads. *)
Lemma getHEAD_world (w : World) : (getHEAD w).2 = w.
Proof.
  unfold getHEAD, fileExists.
  destruct (files w !! headPath) as [content|] eqn:Eh; simpl; [|done].
  rewrite (readFile_present _ _ _ Eh).
  destruct (starts_with "ref: " content); [|done].
  destruct (files w !! Str.chomp _) as [sha|] eqn:Er; simpl; [|done].
  by rewrite (readFile_present _ _ _ Er).
Qed.

Lemma readIndex_empty (w : World) :
  readIndex w = [] <-> files w !! indexPath = None \/ files w !! indexPath = Some "".
Proof.
  unfold readIndex. destruct (files w !! indexPath) as [text|]; [|by split; auto].
  split.
  - intros H. right. f_equal. destruct text as [|a text]; [done|].
    simpl in H. destruct (Ascii.eqb a LF); [done|].
    by destruct (Str.getlines text).
  - by intros [|[= ->]].
Qed.

Lemma createTreeFromIndex_nonempty (w : World) :
  readIndex w <> [] ->
  createTreeFromIndex w
  = (computeSHA1 (index_tree_data (readIndex w)),
     writeObject (computeSHA1 (index_tree_data (readIndex w)))
                 (index_tree_data (readIndex w)) w).
Proof. unfold createTreeFromIndex. by destruct (readIndex w). Qed.

Lemma object_path_not_head (sha : string) : getObjectPath sha <> headPath.
Proof. intros H. discriminate H. Qed.

End CmdCommit.

(** The stand-ins have what the program relies on. *)
Lemma sample_externals_ok : ExternalsOk sample_externals.
Proof.
  split; [reflexivity|]. intros data. exists (String "x" data). by split.
Qed.

(** C9. When the index file is absent or empty, [cmdCommit] finds no
    index entry, leaves every file as it is (no object, [HEAD], its ref
    file, the log and the index untouched) and only prints
    ["Nothing to commit"]. *)
Theorem cmdCommit_nothing_to_commit {E : Externals} (message : string)
    (now now_log : Z) (w : World) :
  files w !! indexPath = None \/ files w !! indexPath = Some "" ->
  readIndex w = []
  /\ files (cmdCommit message now now_log w) = files w
  /\ effects (cmdCommit message now now_log w)
     = effects w ++ [Stdout ("Nothing to commit" +:+ nl)].
Proof.
  intros Hidx. apply readIndex_empty in Hidx. split; [done|].
  unfold cmdCommit, createTreeFromIndex. rewrite Hidx. done.
Qed.

Lemma cmdCommit_nothing_to_commit_witness :
  files (sample_world "") !! indexPath = Some ""
  /\ effects (@cmdCommit sample_externals "first" 1700000000 1700000001
               (sample_world ""))
     = [Stdout ("Nothing to commit" +:+ nl)].
Proof.
  split; [reflexivity|].
  apply (@cmdCommit_nothing_to_commit sample_externals "first" 1700000000
           1700000001 (sample_world "")).
  right. reflexivity.
Defined.

(** C3. For every commit with a non-empty index, in a repository whose
    [HEAD] points to a ref file (other than the index and the log):
    afterwards the index file is empty and the ref file holds exactly the
    digest of the new commit and a newline; the writes happen in the
    order tree object, commit object, ref file, log, index, and the
    digest is printed last. *)
Theorem cmdCommit_postconditions {E : Externals} `{!ExternalsOk E}
    (message : string) (now now_log : Z) (w : World) (content target : string) :
  readIndex w <> [] ->
  files w !! headPath = Some content ->
  head_target content = Some target ->
  target <> indexPath ->
  target <> logPath ->
  let treeData := index_tree_data (readIndex w) in
  let treeSha := computeSHA1 treeData in
  let parentSha := (getHEAD (createTreeFromIndex w).2).1 in
  let commitData := commit_data treeSha parentSha message now in
  let commitSha := computeSHA1 commitData in
  let w' := cmdCommit message now now_log w in
  files w' !! indexPath = Some ""
  /\ files w' !! target = Some (commitSha +:+ nl)
  /\ exists treeZ commitZ,
       zlib_compress (uLong_prefix treeData) = Some treeZ
       /\ zlib_compress (uLong_prefix commitData) = Some commitZ
       /\ effects w'
          = effects w
            ++ [Wrote (getObjectPath treeSha) treeZ;
                Wrote (getObjectPath commitSha) commitZ;
                Wrote target (commitSha +:+ nl);
                Appended logPath (log_record commitSha parentSha message now_log);
                Wrote indexPath "";
                Stdout (commitSha +:+ nl)].
Proof.
  intros Hidx Hhead Htarget Hni Hnl treeData treeSha parentSha commitData
    commitSha w'.
  destruct (writeObject_writes treeSha treeData w) as (treeZ & HtreeZ & Hw1).
  assert (Htree : createTreeFromIndex w = (treeSha, writeFile (getObjectPath treeSha) treeZ w)).
  { rewrite (createTreeFromIndex_nonempty _ Hidx). fold treeData. fold treeSha.
    by rewrite Hw1. }
  set (w1 := writeFile (getObjectPath treeSha) treeZ w) in *.
  assert (Hparent : getHEAD w1 = (parentSha, w1)).
  { unfold parentSha. rewrite Htree. simpl.
    rewrite <- (getHEAD_world w1) at 3. by destruct (getHEAD w1). }
  destruct (writeObject_writes commitSha commitData w1) as (commitZ & HcommitZ & Hw3).
  set (w3 := writeFile (getObjectPath commitSha) commitZ w1) in *.
  assert (Hhead3 : files w3 !! headPath = Some content).
  { unfold w3, w1, writeFile. simpl.
    rewrite !lookup_insert_ne by apply object_path_not_head. done. }
  assert (Hrun : w' = emit (Stdout (commitSha +:+ nl))
                        (writeFile indexPath ""
                           (updateLog commitSha parentSha message now_log
                              (writeFile target (commitSha +:+ nl) w3)))).
  { unfold w', cmdCommit. rewrite Htree. cbv beta iota.
    fold treeSha. unfold treeSha at 1.
    rewrite (computeSHA1_not_empty treeData). rewrite Hparent. cbv beta iota.
    unfold createCommit. fold commitData. fold commitSha. rewrite Hw3.
    cbv beta iota zeta.
    unfold updateHEAD. rewrite (readFile_present _ _ _ Hhead3), Htarget. done. }
  rewrite Hrun. unfold emit, updateLog, appendFile, writeFile. simpl.
  split; [apply lookup_insert_eq|]. split.
  - rewrite !lookup_insert_ne by done. apply lookup_insert_eq.
  - exists treeZ, commitZ. split; [done|]. split; [done|].
    by rewrite <- !List.app_assoc.
Qed.

Lemma cmdCommit_postconditions_witness :
  let w := sample_world (index_text index_b_a) in
  let w' := @cmdCommit sample_externals "first" 1700000000 1700000001 w in
  readIndex w <> []
  /\ head_target ("ref: refs\heads\master" +:+ nl) = Some ".mygit\refs\heads\master"
  /\ files w' !! indexPath = Some ""
  /\ files w' !! ".mygit\refs\heads\master"
     = Some ("becbd8e5f2ff0c192633404d5a6774818e9ba8b5" +:+ nl).
Proof.
  intros w w'. split; [discriminate|]. split; [reflexivity|].
  destruct (@cmdCommit_postconditions sample_externals sample_externals_ok
              "first" 1700000000
              1700000001 w ("ref: refs\heads\master" +:+ nl)
              ".mygit\refs\heads\master")
    as (Hindex & Href & _).
  - discriminate.
  - reflexivity.
  - reflexivity.
  - discriminate.
  - discriminate.
  - split; [exact Hindex | exact Href].
Defined.

(** ** Decompression *)

Section Decompress.

Context {E : Externals}.

Lemma uLong_lt (n : N) : (uLong n < 2 ^ 32)%N.
Proof. unfold uLong. apply N.mod_lt. done. Qed.

(** The [k]-th buffer size is the initial one times [2 ^ k], in
    [uLongf] arithmetic. *)
Lemma buffer_size_eq (initial : N) (k : nat) :
  buffer_size (uLong initial) k = uLong (initial * 2 ^ N.of_nat k).
Proof.
  induction k as [|k IH].
  - simpl. by rewrite N.mul_1_r.
  - cbn [buffer_size]. rewrite IH. unfold uLong.
    rewrite Nat2N.inj_succ, N.pow_succ_r', N.mul_assoc.
    rewrite N.Div0.mul_mod_idemp_l. f_equal. lia.
Qed.

(** After thirty-two doublings the buffer size is zero, and it stays
    zero. *)
Lemma buffer_size_zero (initial : N) (k : nat) :
  32 <= k -> buffer_size (uLong initial) k = 0%N.
Proof.
  intros Hk. rewrite buffer_size_eq. unfold uLong.
  replace (N.of_nat k) with (32 + N.of_nat (k - 32))%N by lia.
  rewrite N.pow_add_r, (N.mul_comm (2 ^ 32)), N.mul_assoc.
  apply N.Div0.mod_mul.
Qed.

(** The loop started at the [j]-th buffer size. *)
Lemma decompress_loop_retry (fuel : nat) (compressed : string) (size : N) :
  zlib_uncompress (uLong_prefix compressed) size = Z_BUF_ERROR ->
  decompress_loop (S fuel) compressed size
  = decompress_loop fuel compressed (uLong (size * 2)).
Proof. intros H. simpl. by rewrite H. Qed.

(** While every buffer size met is too short, the loop retries. *)
Lemma decompress_loop_short (fuel : nat) (compressed : string) (initial : N) :
  (forall k, k < fuel ->
     zlib_uncompress (uLong_prefix compressed) (buffer_size initial k) = Z_BUF_ERROR) ->
  decompress_loop fuel compressed initial = None.
Proof.
  revert initial. induction fuel as [|fuel IH]; intros initial Hshort; [done|].
  rewrite decompress_loop_retry by (apply (Hshort 0); lia).
  apply IH. intros k Hk.
  replace (buffer_size (uLong (initial * 2)) k) with (buffer_size initial (S k)).
  - apply Hshort. lia.
  - clear. induction k as [|k IH]; [done|]. cbn [buffer_size] in *. by rewrite IH.
Qed.

(** The loop returns at the first buffer size that is not too short:
    with the decoded bytes on [Z_OK], with the failure on any other
    code. *)
Lemma decompress_loop_returns (k : nat) (compressed : string) (initial : N) :
  (forall j, j < k ->
     zlib_uncompress (uLong_prefix compressed) (buffer_size initial j) = Z_BUF_ERROR) ->
  decompress_loop (S k) compressed initial
  = match zlib_uncompress (uLong_prefix compressed) (buffer_size initial k) with
    | Z_OK out => Some (Decoded out)
    | Z_BUF_ERROR => None
    | Z_OTHER _ => Some DecompressFailed
    end.
Proof.
  revert initial. induction k as [|k IH]; intros initial Hshort.
  - simpl. by destruct (zlib_uncompress _ _).
  - rewrite decompress_loop_retry by (apply (Hshort 0); lia).
    assert (Hnext : forall j, buffer_size (uLong (initial * 2)) j
                              = buffer_size initial (S j)).
    { induction j as [|j IHj]; [done|]. cbn [buffer_size] in *. by rewrite IHj. }
    rewrite IH.
    + by rewrite Hnext.
    + intros j Hj. rewrite Hnext. apply Hshort. lia.
Qed.

(** More fuel does not change a result. *)
Lemma decompress_loop_fuel (fuel extra : nat) (compressed : string) (size : N)
    (result : Decompressed) :
  decompress_loop fuel compressed size = Some result ->
  decompress_loop (fuel + extra) compressed size = Some result.
Proof.
  revert size. induction fuel as [|fuel IH]; intros size; [done|].
  simpl. destruct (zlib_uncompress _ _); auto.
Qed.

(** If [uncompress] reported a short buffer for every buffer size, the
    loop would never return: no ceiling is written in it. *)
Lemma decompressData_always_short (compressed : string) :
  (forall destLen,
     zlib_uncompress (uLong_prefix compressed) destLen = Z_BUF_ERROR) ->
  forall fuel, decompressData fuel compressed = None.
Proof.
  intros Hshort fuel. unfold decompressData.
  apply decompress_loop_short. intros k _. apply Hshort.
Qed.

(** The first buffer size that is not reported too short is met within
    thirty-two doublings. *)
Lemma first_answer (compressed : string) (initial : N) :
  zero_length_not_short ->
  exists k,
    k <= 32
    /\ (forall j, j < k ->
          zlib_uncompress (uLong_prefix compressed)
                          (buffer_size (uLong initial) j) = Z_BUF_ERROR)
    /\ zlib_uncompress (uLong_prefix compressed) (buffer_size (uLong initial) k)
       <> Z_BUF_ERROR.
Proof.
  intros Hzero.
  set (short j := zlib_uncompress (uLong_prefix compressed)
                    (buffer_size (uLong initial) j) = Z_BUF_ERROR).
  assert (Hsearch : forall n,
            (forall j, j < n -> short j)
            \/ exists k, k < n /\ (forall j, j < k -> short j) /\ ~ short k).
  { induction n as [|n [Hall|(k & Hk & Hbefore & Hans)]].
    - left. intros j Hj. lia.
    - destruct (zlib_uncompress (uLong_prefix compressed)
                  (buffer_size (uLong initial) n)) as [out| |code] eqn:Ean.
      + right. exists n. split; [lia|]. split; [done|].
        unfold short. rewrite Ean. discriminate.
      + left. intros j Hj. destruct (decide (j = n)) as [->|]; [done|].
        apply Hall. lia.
      + right. exists n. split; [lia|]. split; [done|].
        unfold short. rewrite Ean. discriminate.
    - right. exists k. split; [lia | done]. }
  destruct (Hsearch 32) as [Hall|(k & Hk & Hbefore & Hans)].
  - exists 32. split; [done|]. split; [done|].
    rewrite buffer_size_zero by done. apply Hzero.
  - exists k. split; [lia | done].
Qed.

End Decompress.

(** C5. For every input, [decompressData] returns after at most
    thirty-two retries: the retries are exactly the rounds in which
    [uncompress] reports a short buffer, the buffer size is doubled in
    [uLongf] arithmetic and so never exceeds [2 ^ 32 - 1], and at the
    first other answer the loop returns the decoded bytes ([Z_OK]) or
    fails ([Decompression failed], any other code). The doubled size is
    zero after thirty-two doublings at the latest, and zlib reports no
    short buffer for a zero-length buffer. *)
Theorem decompressData_total {E : Externals} (compressed : string) :
  zero_length_not_short ->
  let initial := uLong (N.of_nat (Str.len compressed) * 10) in
  (forall j, (buffer_size initial j < 2 ^ 32)%N)
  /\ exists k,
       k <= 32
       /\ (forall j, j < k ->
             zlib_uncompress (uLong_prefix compressed) (buffer_size initial j)
             = Z_BUF_ERROR)
       /\ exists result,
            (forall fuel, k < fuel -> decompressData fuel compressed = Some result)
            /\ match zlib_uncompress (uLong_prefix compressed)
                                    (buffer_size initial k) with
               | Z_OK out => result = Decoded out
               | Z_BUF_ERROR => False
               | Z_OTHER _ => result = DecompressFailed
               end.
Proof.
  intros Hzero initial. split.
  { intros [|j]; [apply uLong_lt|]. cbn [buffer_size]. apply uLong_lt. }
  destruct (first_answer compressed (N.of_nat (Str.len compressed) * 10) Hzero)
    as (k & Hk & Hshort & Hanswer).
  fold initial in Hshort, Hanswer.
  exists k. split; [done|]. split; [done|].
  pose proof (decompress_loop_returns k compressed initial Hshort) as Hrun.
  destruct (zlib_uncompress (uLong_prefix compressed) (buffer_size initial k))
    as [out| |code] eqn:Eans; [| done |].
  - exists (Decoded out). split; [|done]. intros fuel Hfuel.
    replace fuel with (S k + (fuel - S k)) by lia.
    by apply decompress_loop_fuel.
  - exists DecompressFailed. split; [|done]. intros fuel Hfuel.
    replace fuel with (S k + (fuel - S k)) by lia.
    by apply decompress_loop_fuel.
Qed.

Lemma decompressData_total_witness :
  @zero_length_not_short runlength_externals
  /\ exists result, @decompressData runlength_externals 33 "aaaa" = Some result.
Proof.
  assert (Hzero : @zero_length_not_short runlength_externals).
  { intros source. unfold zlib_uncompress, runlength_externals, runlength_uncompress.
    destruct (N.leb_spec (2 ^ (8 * N.of_nat (Str.len source))) 0); discriminate. }
  split; [exact Hzero|].
  destruct (@decompressData_total runlength_externals "aaaa" Hzero)
    as (_ & k & Hk & _ & result & Hrun & _).
  exists result. apply Hrun. lia.
Defined.

(** A source that stands for [2 ^ 32] bytes: the sizes tried are
    [40 * 2 ^ j], the twenty-ninth doubling wraps to zero, and the call
    fails. A source that stands for 256 bytes is decoded at the fifth
    size. *)
Example decompressData_wraps_then_fails :
  @decompressData runlength_externals 33 "aaaa" = Some DecompressFailed
  /\ @decompressData runlength_externals 29 "aaaa" = None
  /\ @decompressData runlength_externals 33 "a"
     = Some (Decoded (N.iter 256 (String NUL) "")).
Proof. repeat split; vm_compute; reflexivity. Qed.

(** ** The clear phase of checkout *)

Section CheckoutClear.

Variable remove_all : Node -> RemoveResult.

Lemma protected_name_iff (name : string) :
  protected_name name = true
  <-> In name [".mygit"; "mygit.exe"; "main.cpp"; "makefile"; "."; ".."].
Proof.
  unfold protected_name. rewrite !orb_true_iff, !String.eqb_eq. simpl.
  unfold REPO_DIR. intuition (subst; auto).
Qed.

Lemma clear_entry_protected (entry : Node) :
  protected_name (node_name entry) = true ->
  clear_entry remove_all entry = (Some entry, []).
Proof. intros H. unfold clear_entry. by rewrite H. Qed.

Lemma clear_entry_removed (entry : Node) :
  protected_name (node_name entry) = false ->
  remove_all entry = Removed ->
  clear_entry remove_all entry = (None, []).
Proof. intros H Hr. unfold clear_entry. by rewrite H, Hr. Qed.

Lemma clear_entry_failed (entry remains : Node) (what : string) :
  protected_name (node_name entry) = false ->
  remove_all entry = RemoveFailed what remains ->
  clear_entry remove_all entry
  = (Some remains, [removal_warning (node_name entry) what]).
Proof. intros H Hr. unfold clear_entry. by rewrite H, Hr. Qed.

Lemma checkout_clear_cons (entry : Node) (rest : list Node) :
  checkout_clear remove_all (entry :: rest)
  = (match (clear_entry remove_all entry).1 with
     | Some n => n :: (checkout_clear remove_all rest).1
     | None => (checkout_clear remove_all rest).1
     end,
     (clear_entry remove_all entry).2 ++ (checkout_clear remove_all rest).2).
Proof.
  cbn [checkout_clear]. destruct (clear_entry remove_all entry).
  by destruct (checkout_clear remove_all rest).
Qed.

(** A protected entry stays as it is. *)
Lemma checkout_clear_keeps (listing : list Node) (entry : Node) :
  In entry listing ->
  protected_name (node_name entry) = true ->
  In entry (checkout_clear remove_all listing).1.
Proof.
  intros Hin Hp. induction listing as [|e rest IH]; [done|].
  rewrite checkout_clear_cons. cbn [fst]. destruct Hin as [->|Hin].
  - rewrite (clear_entry_protected _ Hp). left. done.
  - destruct (clear_entry remove_all e).1; [right|]; auto.
Qed.

(** What is left is a protected entry, or what a failed removal left. *)
Lemma checkout_clear_left (listing : list Node) (n : Node) :
  In n (checkout_clear remove_all listing).1 ->
  (In n listing /\ protected_name (node_name n) = true)
  \/ (exists entry what,
        In entry listing /\ protected_name (node_name entry) = false
        /\ remove_all entry = RemoveFailed what n).
Proof.
  induction listing as [|e rest IH]; [done|].
  rewrite checkout_clear_cons. cbn [fst]. intros Hin.
  assert (Hrest : In n (checkout_clear remove_all rest).1 ->
            (In n (e :: rest) /\ protected_name (node_name n) = true)
            \/ (exists entry what,
                  In entry (e :: rest) /\ protected_name (node_name entry) = false
                  /\ remove_all entry = RemoveFailed what n)).
  { intros H. destruct (IH H) as [[? ?]|(entry & what & ? & ? & ?)].
    - left. split; [by right | done].
    - right. exists entry, what. split; [by right | done]. }
  unfold clear_entry in Hin.
  destruct (protected_name (node_name e)) eqn:Hp.
  - destruct Hin as [<-|Hin]; [|auto]. left. split; [by left | done].
  - destruct (remove_all e) as [|what remains] eqn:Hr; [auto|].
    destruct Hin as [<-|Hin]; [|auto].
    right. exists e, what. split; [by left | done].
Qed.

(** Every line printed is the warning of a failed removal. *)
Lemma checkout_clear_warnings (listing : list Node) (line : Effect) :
  In line (checkout_clear remove_all listing).2 ->
  exists entry what remains,
    In entry listing /\ protected_name (node_name entry) = false
    /\ remove_all entry = RemoveFailed what remains
    /\ line = removal_warning (node_name entry) what.
Proof.
  induction listing as [|e rest IH]; [done|].
  rewrite checkout_clear_cons. cbn [snd]. intros [Hin|Hin]%in_app_or.
  - unfold clear_entry in Hin.
    destruct (protected_name (node_name e)) eqn:Hp; [done|].
    destruct (remove_all e) as [|what remains] eqn:Hr; [done|].
    destruct Hin as [<-|[]]. exists e, what, remains.
    split; [by left | done].
  - destruct (IH Hin) as (entry & what & remains & ? & ? & ? & ?).
    exists entry, what, remains. split; [by right | done].
Qed.

(** When no removal fails, exactly the protected entries are left. *)
Lemma checkout_clear_all_removed (listing : list Node) :
  (forall entry, In entry listing -> remove_all entry = Removed) ->
  checkout_clear remove_all listing
  = (List.filter (fun entry => protected_name (node_name entry)) listing, []).
Proof.
  intros Hall. induction listing as [|e rest IH]; [done|].
  rewrite checkout_clear_cons, IH by (intros; apply Hall; by right).
  cbn [fst snd List.filter]. unfold clear_entry.
  destruct (protected_name (node_name e)); [done|].
  by rewrite (Hall e) by (by left).
Qed.

(** A removal that fails leaves what it left of the entry and prints its
    warning, and the loop goes on. *)
Lemma checkout_clear_failed (listing : list Node) (entry remains : Node)
    (what : string) :
  In entry listing ->
  protected_name (node_name entry) = false ->
  remove_all entry = RemoveFailed what remains ->
  In remains (checkout_clear remove_all listing).1
  /\ In (removal_warning (node_name entry) what)
        (checkout_clear remove_all listing).2.
Proof.
  intros Hin Hp Hr. induction listing as [|e rest IH]; [done|].
  rewrite checkout_clear_cons. cbn [fst snd]. destruct Hin as [->|Hin].
  - rewrite (clear_entry_failed _ _ _ Hp Hr). cbn [fst snd]. split.
    + by left.
    + apply in_or_app. left. by left.
  - destruct (IH Hin) as [Hk Hw]. split.
    + destruct (clear_entry remove_all e).1; [right|]; done.
    + apply in_or_app. by right.
Qed.

(** One warning for each removal that fails, and one entry left for each
    protected entry and each removal that fails: an entry whose removal
    succeeds leaves nothing. *)
Lemma checkout_clear_counts (listing : list Node) :
  length (checkout_clear remove_all listing).2
  = length (List.filter (fun entry => negb (protected_name (node_name entry))
                                      && removal_fails remove_all entry) listing)
  /\ length (checkout_clear remove_all listing).1
     = length (List.filter (fun entry => protected_name (node_name entry)
                                         || removal_fails remove_all entry) listing).
Proof.
  induction listing as [|e rest [IHw IHk]]; [done|].
  rewrite checkout_clear_cons. cbn [fst snd List.filter].
  unfold clear_entry, removal_fails.
  destruct (protected_name (node_name e)); cbn [negb andb orb fst snd].
  - cbn [length app]. by rewrite IHw, IHk.
  - destruct (remove_all e) as [|what remains]; cbn [length app fst snd];
      by rewrite IHw, IHk.
Qed.

End CheckoutClear.

(** C10. The names the clear phase of checkout skips are exactly
    [.mygit], [mygit.exe], [main.cpp], [makefile], [.] and [..]. Every
    entry of the working directory with one of these names is left as it
    is; every entry left is one of these or what a failed removal left
    of another entry; every line printed is the warning of such a
    failure; a removal that fails prints its warning and leaves what it
    left of the entry, and the loop goes on; there is one warning for
    each failure, and one entry left for each protected entry and each
    failure, so an entry whose removal succeeds is gone; and when no
    removal fails, exactly the protected entries are left and nothing is
    printed. *)
Theorem checkout_clear_protected_set (remove_all : Node -> RemoveResult)
    (listing : list Node) :
  (forall name,
     protected_name name = true
     <-> In name [".mygit"; "mygit.exe"; "main.cpp"; "makefile"; "."; ".."])
  /\ (forall entry,
        In entry listing -> protected_name (node_name entry) = true ->
        In entry (checkout_clear remove_all listing).1)
  /\ (forall n,
        In n (checkout_clear remove_all listing).1 ->
        (In n listing /\ protected_name (node_name n) = true)
        \/ (exists entry what,
              In entry listing /\ protected_name (node_name entry) = false
              /\ remove_all entry = RemoveFailed what n))
  /\ (forall line,
        In line (checkout_clear remove_all listing).2 ->
        exists entry what remains,
          In entry listing /\ protected_name (node_name entry) = false
          /\ remove_all entry = RemoveFailed what remains
          /\ line = removal_warning (node_name entry) what)
  /\ (forall entry what remains,
        In entry listing -> protected_name (node_name entry) = false ->
        remove_all entry = RemoveFailed what remains ->
        In remains (checkout_clear remove_all listing).1
        /\ In (removal_warning (node_name entry) what)
              (checkout_clear remove_all listing).2)
  /\ length (checkout_clear remove_all listing).2
     = length (List.filter
                 (fun entry => negb (protected_name (node_name entry))
                               && removal_fails remove_all entry) listing)
  /\ length (checkout_clear remove_all listing).1
     = length (List.filter
                 (fun entry => protected_name (node_name entry)
                               || removal_fails remove_all entry) listing)
  /\ ((forall entry, In entry listing -> remove_all entry = Removed) ->
      checkout_clear remove_all listing
      = (List.filter (fun entry => protected_name (node_name entry)) listing, [])).
Proof.
  split; [apply protected_name_iff|].
  split; [apply checkout_clear_keeps|].
  split; [apply checkout_clear_left|].
  split; [apply checkout_clear_warnings|].
  split; [intros entry what remains; apply checkout_clear_failed|].
  split; [apply checkout_clear_counts|].
  split; [apply checkout_clear_counts | apply checkout_clear_all_removed].
Qed.

(** * More of the program *)

(** ** Digests and object paths *)

Section Digests.

Context {E : Externals}.

Lemma hex_digit_hex (n : N) : is_hex (hex_digit n) = true.
Proof.
  destruct n as [|p]; [done|].
  do 4 (try (destruct p as [p|p|]); try reflexivity).
Qed.

Lemma computeSHA1_hex (data : string) : Str.all is_hex (computeSHA1 data) = true.
Proof.
  unfold computeSHA1. induction (SHA1 data) as [|b l IH]; [done|].
  cbn [foldr]. rewrite all_app, IH. unfold hex2. cbn [Str.all].
  by rewrite !hex_digit_hex.
Qed.

Lemma hex_lacks (c : ascii) (s : string) :
  is_hex c = false -> Str.all is_hex s = true -> Str.lacks c s = true.
Proof.
  intros Hc. apply all_impl. intros a Ha.
  apply negb_true_iff, Ascii.eqb_neq. intros ->. congruence.
Qed.

Lemma hex_ws_free (s : string) : Str.all is_hex s = true -> ws_free s = true.
Proof.
  apply all_impl. intros a Ha. apply negb_true_iff.
  destruct (Ascii.is_space a) eqn:Hs; [|done].
  destruct a as [[] [] [] [] [] [] [] []]; discriminate.
Qed.

Lemma object_path_cons (x y : ascii) (rest : string) :
  getObjectPath (String x (String y rest))
  = REPO_DIR +:+ "\objects\" +:+ String x (String y ("\" +:+ rest)).
Proof. reflexivity. Qed.

Lemma writeObject_files (sha content : string) (w : World) :
  files (writeObject sha content w) = files w
  \/ exists compressed,
       files (writeObject sha content w)
       = <[getObjectPath sha := compressed]> (files w).
Proof.
  unfold writeObject, compressData.
  destruct (zlib_compress (uLong_prefix content)) as [c|]; [|by left].
  destruct (Str.empty c); [by left|]. right. by exists c.
Qed.

End Digests.

(** X1. A digest is forty lowercase hexadecimal characters, whatever the
    data: every byte of the hash is written as two digits, the first one
    a zero when the byte is below sixteen. *)
Theorem computeSHA1_digest {E : Externals} `{!ExternalsOk E} (data : string) :
  Str.len (computeSHA1 data) = 40 /\ Str.all is_hex (computeSHA1 data) = true.
Proof.
  split; [|apply computeSHA1_hex].
  rewrite computeSHA1_len, SHA1_length. done.
Qed.

Lemma computeSHA1_digest_witness :
  Str.len (@computeSHA1 sample_externals "abc") = 40
  /\ Str.all is_hex (@computeSHA1 sample_externals "abc") = true.
Proof. apply (@computeSHA1_digest sample_externals sample_externals_ok "abc"). Defined.

(** X2. Two digests of at least two characters that differ are stored
    under different paths. *)
Theorem getObjectPath_injective (sha1 sha2 : string) :
  2 <= Str.len sha1 -> 2 <= Str.len sha2 ->
  sha1 <> sha2 -> getObjectPath sha1 <> getObjectPath sha2.
Proof.
  destruct sha1 as [|x1 [|y1 r1]]; simpl; try lia.
  destruct sha2 as [|x2 [|y2 r2]]; simpl; try lia.
  intros _ _ Hne. rewrite !object_path_cons. intros H. apply Hne.
  apply (inj (String.append _)) in H. by injection H as -> -> ->.
Qed.

Lemma getObjectPath_injective_witness :
  2 <= Str.len sha_a /\ 2 <= Str.len sha_b /\ sha_a <> sha_b
  /\ getObjectPath sha_a <> getObjectPath sha_b.
Proof.
  split; [simpl; lia|]. split; [simpl; lia|]. split; [discriminate|].
  apply (getObjectPath_injective sha_a sha_b); [simpl; lia | simpl; lia | discriminate].
Defined.

(** X3. Writing an object changes no file but the one at the object's
    path: [HEAD], the index, the log and every file under [refs] are as
    before. *)
Theorem writeObject_frame {E : Externals} (sha content : string) (w : World) :
  (forall path, path <> getObjectPath sha ->
     files (writeObject sha content w) !! path = files w !! path)
  /\ files (writeObject sha content w) !! headPath = files w !! headPath
  /\ files (writeObject sha content w) !! indexPath = files w !! indexPath
  /\ files (writeObject sha content w) !! logPath = files w !! logPath
  /\ (forall name,
        files (writeObject sha content w) !! (REPO_DIR +:+ "\refs\" +:+ name)
        = files w !! (REPO_DIR +:+ "\refs\" +:+ name)).
Proof.
  assert (Hframe : forall path, path <> getObjectPath sha ->
            files (writeObject sha content w) !! path = files w !! path).
  { intros path Hne.
    destruct (writeObject_files sha content w) as [->|[c ->]]; [done|].
    by rewrite lookup_insert_ne. }
  split; [exact Hframe|].
  repeat split; try intros name; apply Hframe; intros H; discriminate H.
Qed.

(** ** The object store *)

Section ObjectStore.

Context {E : Externals}.

Lemma take_all (s : string) : Str.take (Str.len s) s = s.
Proof. induction s as [|a s IH]; simpl; [done | by rewrite IH]. Qed.

Lemma uLong_prefix_small (s : string) :
  (N.of_nat (Str.len s) < 2 ^ 32)%N -> uLong_prefix s = s.
Proof.
  intros H. unfold uLong_prefix, uLong. rewrite N.mod_small by done.
  rewrite Nat2N.id. apply take_all.
Qed.

(** Doubling from a buffer of at least one byte reaches the size of the
    data before the size wraps, when the data is at most [2 ^ 31] bytes. *)
Lemma decompress_loop_fits `{!ZlibRoundTrip E} (data c : string) (n : nat) (size : N) :
  zlib_compress data = Some c ->
  uLong_prefix c = c ->
  (0 < size < 2 ^ 32)%N ->
  (N.of_nat (Str.len data) <= 2 ^ 31)%N ->
  (N.of_nat (Str.len data) <= size * 2 ^ N.of_nat n)%N ->
  exists k, k <= n /\ decompress_loop (S k) c size = Some (Decoded data).
Proof.
  intros Hc Hpre. revert size. induction n as [|n IH]; intros size Hsize Hmax Hreach.
  - exists 0. split; [done|]. simpl. rewrite Hpre.
    rewrite (uncompress_fits data c size Hc); [done|].
    rewrite N.mul_1_r in Hreach. done.
  - destruct (N.le_gt_cases (N.of_nat (Str.len data)) size) as [Hfit|Hshort].
    + exists 0. split; [lia|]. simpl. rewrite Hpre.
      by rewrite (uncompress_fits data c size Hc).
    + assert (Hdouble : uLong (size * 2) = (size * 2)%N).
      { unfold uLong. apply N.mod_small. lia. }
      destruct (IH (size * 2)%N) as (k & Hk & Hrun); [lia | done | |].
      { rewrite Nat2N.inj_succ, N.pow_succ_r' in Hreach. lia. }
      exists (S k). split; [lia|].
      rewrite decompress_loop_retry.
      * by rewrite Hdouble.
      * rewrite Hpre. apply (uncompress_short data c size Hc). lia.
Qed.

(** From the first buffer of an object file, ten times its length. *)
Lemma decompress_first `{!ZlibRoundTrip E} (data c : string) :
  zlib_compress data = Some c ->
  c <> "" ->
  (10 * N.of_nat (Str.len c) < 2 ^ 32)%N ->
  (N.of_nat (Str.len data) <= 2 ^ 31)%N ->
  exists k,
    k <= 32
    /\ decompress_loop (S k) c (uLong (N.of_nat (Str.len c) * 10))
       = Some (Decoded data).
Proof.
  intros Hc Hne Hlen Hdata.
  assert (Hpre : uLong_prefix c = c) by (apply uLong_prefix_small; lia).
  assert (Hinit : uLong (N.of_nat (Str.len c) * 10) = (N.of_nat (Str.len c) * 10)%N).
  { unfold uLong. apply N.mod_small. lia. }
  rewrite Hinit.
  assert (Hpos : (0 < N.of_nat (Str.len c))%N) by (destruct c; [done | simpl; lia]).
  apply (decompress_loop_fits data c 32 _ Hc Hpre); [lia | done |].
  change (2 ^ N.of_nat 32)%N with (2 * 2 ^ 31)%N. nia.
Qed.

Lemma readObject_stored (fuel : nat) (w : World) (sha data : string) :
  stored fuel w sha data -> readObject fuel sha w = Some (data, w).
Proof.
  intros (z & Hz & Hdec). unfold readObject, fileExists. rewrite Hz.
  rewrite bool_decide_eq_true_2 by eauto. cbn [negb].
  by rewrite (readFile_present _ _ _ Hz), Hdec.
Qed.

(** What [writeObject] wrote is in the store. *)
Lemma writeObject_stored `{!ExternalsOk E} `{!ZlibRoundTrip E}
    (sha content : string) (fuel : nat) (w : World) :
  (N.of_nat (Str.len content) <= 2 ^ 31)%N ->
  (forall c, zlib_compress content = Some c ->
     (10 * N.of_nat (Str.len c) < 2 ^ 32)%N) ->
  32 < fuel ->
  stored fuel (writeObject sha content w) sha content.
Proof.
  intros Hlen Hstream Hfuel.
  assert (Hpre : uLong_prefix content = content) by (apply uLong_prefix_small; lia).
  destruct (writeObject_writes sha content w) as (c & Hc & ->).
  rewrite Hpre in Hc.
  destruct (zlib_compress_ok content) as (c' & Hc' & Hne).
  assert (c' = c) as -> by congruence.
  exists c. split; [unfold writeFile; cbn; apply lookup_insert_eq|].
  destruct (decompress_first content c Hc Hne (Hstream c Hc) Hlen) as (k & Hk & Hrun).
  unfold decompressData. replace fuel with (S k + (fuel - S k)) by lia.
  by apply decompress_loop_fuel.
Qed.

End ObjectStore.

(** X4. [decompressData] gives back the data of every stream [compress]
    produced, when the data is at most [2 ^ 31] bytes and ten times the
    length of the stream fits a [uLong]: the doubled buffer reaches the
    size of the data before it wraps. *)
Theorem decompressData_decodes {E : Externals} `{!ZlibRoundTrip E}
    (data c : string) (fuel : nat) :
  zlib_compress data = Some c ->
  c <> "" ->
  (10 * N.of_nat (Str.len c) < 2 ^ 32)%N ->
  (N.of_nat (Str.len data) <= 2 ^ 31)%N ->
  32 < fuel ->
  decompressData fuel c = Some (Decoded data).
Proof.
  intros Hc Hne Hlen Hdata Hfuel.
  destruct (decompress_first data c Hc Hne Hlen Hdata) as (k & Hk & Hrun).
  unfold decompressData. replace fuel with (S k + (fuel - S k)) by lia.
  by apply decompress_loop_fuel.
Qed.

(** The stand-in streams keep zlib's promise. *)
Lemma sample_round_trip : ZlibRoundTrip sample_externals.
Proof.
  split.
  - intros data c n [= <-] Hn. cbn.
    destruct (N.leb_spec (N.of_nat (Str.len data)) n); [done | lia].
  - intros data c n [= <-] Hn. cbn.
    destruct (N.leb_spec (N.of_nat (Str.len data)) n); [lia|].
    destruct (N.eqb_spec n 0); [lia | done].
Qed.

Lemma decompressData_decodes_witness :
  @zlib_compress sample_externals "hello" = Some "xhello"
  /\ @decompressData sample_externals 33 "xhello" = Some (Decoded "hello").
Proof.
  split; [reflexivity|].
  apply (@decompressData_decodes sample_externals sample_round_trip "hello" "xhello" 33).
  - reflexivity.
  - discriminate.
  - reflexivity.
  - discriminate.
  - lia.
Defined.

(** X5. An object written to the store is read back as it was written:
    [readObject] after [writeObject] returns the content and changes
    nothing (content of at most [2 ^ 31] bytes, ten times the length of
    its stream within a [uLong]). *)
Theorem readObject_writeObject {E : Externals} `{!ExternalsOk E}
    `{!ZlibRoundTrip E} (sha content : string) (fuel : nat) (w : World) :
  (N.of_nat (Str.len content) <= 2 ^ 31)%N ->
  (forall c, zlib_compress content = Some c ->
     (10 * N.of_nat (Str.len c) < 2 ^ 32)%N) ->
  32 < fuel ->
  readObject fuel sha (writeObject sha content w)
  = Some (content, writeObject sha content w).
Proof.
  intros Hlen Hstream Hfuel.
  by apply readObject_stored, writeObject_stored.
Qed.

Lemma readObject_writeObject_witness :
  let w := @writeObject sample_externals sha_a (blob_data "hi") (sample_world "") in
  @readObject sample_externals 33 sha_a w = Some (blob_data "hi", w).
Proof.
  apply (@readObject_writeObject sample_externals sample_externals_ok
           sample_round_trip sha_a (blob_data "hi") 33 (sample_world "")).
  - discriminate.
  - intros c [= <-]. reflexivity.
  - lia.
Defined.



(** X7. The tree [createTreeFromIndex] writes is read back by
    [parseTree] as one entry per index entry, in the order of the index:
    the terminal path component, the mode and the digest of each. *)
Theorem parseTree_createTreeFromIndex {E : Externals} `{!ExternalsOk E}
    `{!ZlibRoundTrip E} (fuel : nat) (w : World) :
  readIndex w <> [] ->
  forallb index_entry_ok (readIndex w) = true ->
  (N.of_nat (Str.len (index_tree_data (readIndex w))) <= 2 ^ 31)%N ->
  (forall c, zlib_compress (index_tree_data (readIndex w)) = Some c ->
     (10 * N.of_nat (Str.len c) < 2 ^ 32)%N) ->
  32 < fuel ->
  let '(treeSha, w') := createTreeFromIndex w in
  parseTree fuel treeSha w' = Some (map entry_of_index (readIndex w), w').
Proof.
  intros Hne Hok Hlen Hstream Hfuel.
  rewrite (createTreeFromIndex_nonempty _ Hne).
  unfold parseTree.
  rewrite (readObject_stored fuel _ _ (index_tree_data (readIndex w)))
    by (by apply writeObject_stored).
  by rewrite (parseTree_index_tree _ Hok).
Qed.

Lemma parseTree_createTreeFromIndex_witness :
  let w := sample_world (index_text index_b_a) in
  readIndex w <> []
  /\ forallb index_entry_ok (readIndex w) = true
  /\ (let '(treeSha, w') := @createTreeFromIndex sample_externals w in
      @parseTree sample_externals 33 treeSha w'
      = Some (map entry_of_index (readIndex w), w')).
Proof.
  intros w. split; [discriminate|]. split; [reflexivity|].
  apply (@parseTree_createTreeFromIndex sample_externals sample_externals_ok
           sample_round_trip 33 w).
  - discriminate.
  - reflexivity.
  - discriminate.
  - intros c [= <-]. reflexivity.
  - lia.
Defined.

(** ** What [parseTree] returns on any bytes *)

Section ParseTreeAny.

Lemma find_first (c : ascii) (s : string) (pos i : nat) :
  Str.find c s pos = Some i -> Str.lacks c (Str.substr s pos (i - pos)) = true.
Proof.
  revert pos i. induction s as [|a s IH]; [done|]. intros [|pos] i; simpl.
  - destruct (Ascii.eqb a c) eqn:Ea; [by intros [= <-]|].
    destruct (Str.find c s 0) as [i'|] eqn:Ef; [|done]. intros [= <-].
    simpl. unfold Str.lacks. simpl. rewrite Ea. simpl.
    specialize (IH 0 i' Ef). rewrite Nat.sub_0_r in IH. exact IH.
  - destruct (Str.find c s pos) as [i'|] eqn:Ef; [|done]. intros [= <-].
    apply (IH pos i' Ef).
Qed.

Lemma len_substr (s : string) (pos n : nat) :
  pos + n <= Str.len s -> Str.len (Str.substr s pos n) = n.
Proof.
  unfold Str.substr. revert pos n. induction s as [|a s IH]; intros pos n.
  - simpl. intros H. assert (n = 0) as -> by lia. by destruct pos.
  - destruct pos as [|pos]; simpl.
    + destruct n as [|n]; [done|]. intros H. simpl. f_equal.
      apply (IH 0 n). simpl. lia.
    + intros H. apply IH. lia.
Qed.

Lemma parseTree_loop_ok (fuel : nat) (treeData : string) (pos : nat)
    (entries es : list TreeEntry) :
  forallb entry_ok entries = true ->
  parseTree_loop fuel treeData pos entries = Some es ->
  forallb entry_ok es = true.
Proof.
  revert pos entries. induction fuel as [|fuel IH]; intros pos entries Hok; [done|].
  simpl. destruct (negb _); [by intros [= <-]|].
  destruct (Str.find SP treeData pos) as [sp|] eqn:Esp; [|by intros [= <-]].
  destruct (Str.find NUL treeData (sp + 1)) as [np|] eqn:Enp; [|by intros [= <-]].
  destruct (Nat.ltb_spec (Str.len treeData) (np + 1 + 40)); [by intros [= <-]|].
  apply IH. rewrite forallb_app, Hok. simpl. rewrite andb_true_r.
  unfold entry_ok, record_ok. simpl.
  rewrite (find_first _ _ _ _ Esp), (find_first _ _ _ _ Enp).
  rewrite len_substr by lia. simpl. apply Bool.eqb_reflx.
Qed.

End ParseTreeAny.

(** X8. Whatever the bytes of the object, every entry [parseTree]
    returns has a mode without space, a name without null byte, a digest
    of forty characters and the [isTree] flag of its mode; so encoding
    the entries again and parsing the result returns the same entries. *)
Theorem parseTree_data_entries_ok (treeData : string) (es : list TreeEntry) :
  parseTree_data treeData = Some es ->
  forallb entry_ok es = true
  /\ parseTree_data (tree_data es) = Some es.
Proof.
  intros Hparse.
  assert (Hok : forallb entry_ok es = true).
  { unfold parseTree_data in Hparse. destruct (Str.empty treeData).
    - by injection Hparse as <-.
    - destruct (Str.find NUL treeData 0); [|by injection Hparse as <-].
      by apply (parseTree_loop_ok _ _ _ [] es) in Hparse. }
  split; [done|].
  unfold tree_data, tree_object.
  rewrite <- (sapp_nil_r (tree_body es)) at 2.
  apply (parseTree_data_body _ _ "" Hok). by left.
Qed.

Lemma parseTree_data_entries_ok_witness :
  parseTree_data truncated_tree = Some [entry_a]
  /\ parseTree_data (tree_data [entry_a]) = Some [entry_a].
Proof.
  split; [reflexivity|].
  apply (parseTree_data_entries_ok truncated_tree [entry_a]). reflexivity.
Defined.

(** ** Lines *)

Section Lines.

Lemma parse_message_join (lines : list string) :
  parse_message lines = join_lines lines.
Proof.
  unfold parse_message.
  assert (H : forall acc, foldl (fun msg line => msg +:+ line +:+ nl) acc lines
                          = acc +:+ join_lines lines).
  { induction lines as [|l ls IH]; intros acc; simpl.
    - by rewrite sapp_nil_r.
    - rewrite IH. by rewrite !sapp_assoc. }
  apply (H "").
Qed.

Lemma getlines_nonempty (a : ascii) (s : string) : Str.getlines (String a s) <> [].
Proof. simpl. destruct (Ascii.eqb a LF); [done|]. by destruct (Str.getlines s). Qed.

Lemma terminated_tail (a : ascii) (s : string) :
  terminated (String a s) = true ->
  terminated s = true /\ (Ascii.eqb a LF = false -> s <> "").
Proof.
  unfold terminated. simpl. destruct s as [|b s]; simpl; [|done].
  intros H. split; [done|]. intros Ha. congruence.
Qed.

(** Cutting a terminated text into lines and joining them gives the
    text back. *)
Lemma join_getlines (s : string) :
  terminated s = true -> join_lines (Str.getlines s) = s.
Proof.
  induction s as [|a s IH]; [done|]. intros Ht.
  destruct (terminated_tail _ _ Ht) as [Hs Hne]. specialize (IH Hs).
  simpl. destruct (Ascii.eqb a LF) eqn:Ea.
  - apply Ascii.eqb_eq in Ea as ->. simpl. by rewrite IH.
  - destruct s as [|b s]; [by destruct (Hne eq_refl)|].
    destruct (Str.getlines (String b s)) as [|l ls] eqn:El.
    + by destruct (getlines_nonempty b s).
    + simpl in *. by rewrite IH.
Qed.

Lemma terminated_nl (s : string) : terminated (s +:+ nl) = true.
Proof.
  unfold terminated. induction s as [|a s IH]; [done|].
  simpl in *. destruct (s +:+ nl) eqn:Es; [by destruct s|]. exact IH.
Qed.

End Lines.

(** X9. A commit read back: for every tree digest, parent digest,
    message and time, [parseCommit] of what [createCommit] encodes
    returns the tree digest, the parent digest (empty when the parent
    was empty or all zeros), the identity with the time and offset as
    author and committer, and the message followed by one newline. *)
Theorem parseCommit_commit_data (treeSha parentSha message : string) (now : Z) :
  Str.lacks LF treeSha = true ->
  Str.lacks LF parentSha = true ->
  parseCommit_data (commit_data treeSha parentSha message now)
  = mkCommitInfo treeSha
                 (if has_parent parentSha then parentSha else "")
                 ("User <user@example.com> " +:+ Str.of_Z now +:+ " +0000")
                 ("User <user@example.com> " +:+ Str.of_Z now +:+ " +0000")
                 (message +:+ nl)
                 "+0000".
Proof.
  intros Ht Hp. unfold parseCommit_data, commit_data, commit_object.
  change (Str.empty _) with false. cbv iota.
  rewrite header_split, header_drop by done.
  rewrite commit_content_lines by done.
  cbn [parse_header]. change (Str.empty ("tree " +:+ treeSha)) with false.
  cbv iota. rewrite parse_tree_line.
  destruct (has_parent parentSha); cbn [app parse_header].
  - change (Str.empty ("parent " +:+ parentSha)) with false.
    change (Str.empty ("author " +:+ identity_line now)) with false.
    change (Str.empty ("committer " +:+ identity_line now)) with false.
    cbv iota. rewrite parse_parent_line, parse_author_line, parse_committer_line.
    cbn. rewrite parse_message_join, join_getlines by apply terminated_nl. done.
  - change (Str.empty ("author " +:+ identity_line now)) with false.
    change (Str.empty ("committer " +:+ identity_line now)) with false.
    cbv iota. rewrite parse_author_line, parse_committer_line.
    cbn. rewrite parse_message_join, join_getlines by apply terminated_nl. done.
Qed.

Lemma parseCommit_commit_data_witness :
  Str.lacks LF sha_a = true /\ Str.lacks LF sha_b = true
  /\ ci_parentSha (parseCommit_data (commit_data sha_a sha_b "second" 1700000000))
     = sha_b.
Proof.
  split; [reflexivity|]. split; [reflexivity|].
  rewrite (parseCommit_commit_data sha_a sha_b "second" 1700000000);
    reflexivity.
Defined.

(** ** HEAD and the ref file *)

Section Head.

Lemma ends_with_app (c : ascii) (a b : string) :
  b <> "" -> Str.ends_with c (a +:+ b) = Str.ends_with c b.
Proof.
  intros Hb. induction a as [|x a IH]; [done|].
  simpl. destruct (a +:+ b) eqn:Eab; [|exact IH].
  destruct a; [simpl in Eab; congruence | discriminate].
Qed.

Lemma pop_back_app (a b : string) :
  b <> "" -> Str.pop_back (a +:+ b) = a +:+ Str.pop_back b.
Proof.
  intros Hb. induction a as [|x a IH]; [done|].
  simpl. destruct (a +:+ b) eqn:Eab.
  - destruct a; [simpl in Eab; congruence | discriminate].
  - by rewrite IH.
Qed.

Lemma chomp_app (a b : string) :
  b <> "" -> Str.chomp (a +:+ b) = a +:+ Str.chomp b.
Proof.
  intros Hb. unfold Str.chomp. rewrite ends_with_app by done.
  destruct (Str.ends_with LF b); [by apply pop_back_app | done].
Qed.

Lemma chomp_nl (s : string) : Str.chomp (s +:+ nl) = s.
Proof. rewrite chomp_app by done. by rewrite sapp_nil_r. Qed.

(** [getHEAD] and [updateHEAD] name the same ref file. *)
Lemma head_path_chomp (rest : string) :
  Str.chomp (REPO_DIR +:+ "\" +:+ rest) = REPO_DIR +:+ "\" +:+ Str.chomp rest.
Proof.
  destruct rest as [|a rest]; [done|].
  rewrite <- sapp_assoc. rewrite chomp_app by done. by rewrite sapp_assoc.
Qed.

Lemma head_target_inv (content target : string) :
  head_target content = Some target ->
  starts_with "ref: " content = true
  /\ target = Str.chomp (REPO_DIR +:+ "\" +:+ Str.drop 5 content).
Proof.
  unfold head_target. destruct (starts_with "ref: " content); [|done].
  intros [= <-]. by rewrite head_path_chomp.
Qed.

(** What [getHEAD] returns, from the two files it reads. *)
Lemma getHEAD_lookup (w : World) (content target text : string) :
  files w !! headPath = Some content ->
  head_target content = Some target ->
  files w !! target = Some text ->
  getHEAD w = (Str.chomp text, w).
Proof.
  intros Hhead Htarget Href.
  destruct (head_target_inv _ _ Htarget) as [Hstart ->].
  unfold getHEAD, fileExists. rewrite Hhead.
  rewrite bool_decide_eq_true_2 by eauto. cbn [negb].
  rewrite (readFile_present _ _ _ Hhead), Hstart, Href.
  rewrite bool_decide_eq_true_2 by eauto.
  by rewrite (readFile_present _ _ _ Href).
Qed.

End Head.

(** X10. What [updateHEAD] writes, [getHEAD] reads: in a repository
    whose [HEAD] points to a ref file other than [HEAD] itself, after
    [updateHEAD] of a digest [getHEAD] returns that digest. *)
Theorem getHEAD_updateHEAD (commitSha content target : string) (w : World) :
  files w !! headPath = Some content ->
  head_target content = Some target ->
  target <> headPath ->
  getHEAD (updateHEAD commitSha w) = (commitSha, updateHEAD commitSha w).
Proof.
  intros Hhead Htarget Hne.
  assert (Hw : updateHEAD commitSha w = writeFile target (commitSha +:+ nl) w).
  { unfold updateHEAD. by rewrite (readFile_present _ _ _ Hhead), Htarget. }
  rewrite Hw. rewrite <- (chomp_nl commitSha) at 2.
  apply (getHEAD_lookup _ content target).
  - unfold writeFile. cbn. by rewrite lookup_insert_ne.
  - done.
  - unfold writeFile. cbn. apply lookup_insert_eq.
Qed.

Lemma getHEAD_updateHEAD_witness :
  files (sample_world "") !! headPath = Some ("ref: refs\heads\master" +:+ nl)
  /\ (getHEAD (updateHEAD sha_a (sample_world ""))).1 = sha_a.
Proof.
  split; [reflexivity|].
  rewrite (getHEAD_updateHEAD sha_a ("ref: refs\heads\master" +:+ nl)
             ".mygit\refs\heads\master" (sample_world ""));
    [reflexivity | reflexivity | reflexivity | discriminate].
Defined.

Section AfterCommit.

Context {E : Externals} `{!ExternalsOk E}.

(** The world a commit with a non-empty index leaves. *)
Lemma cmdCommit_world (message : string) (now now_log : Z) (w : World)
    (content target : string) :
  readIndex w <> [] ->
  files w !! headPath = Some content ->
  head_target content = Some target ->
  let treeData := index_tree_data (readIndex w) in
  let treeSha := computeSHA1 treeData in
  let parentSha := (getHEAD (createTreeFromIndex w).2).1 in
  let commitData := commit_data treeSha parentSha message now in
  let commitSha := computeSHA1 commitData in
  exists treeZ commitZ,
    cmdCommit message now now_log w
    = emit (Stdout (commitSha +:+ nl))
        (writeFile indexPath ""
           (updateLog commitSha parentSha message now_log
              (writeFile target (commitSha +:+ nl)
                 (writeFile (getObjectPath commitSha) commitZ
                    (writeFile (getObjectPath treeSha) treeZ w))))).
Proof.
  intros Hidx Hhead Htarget treeData treeSha parentSha commitData commitSha.
  destruct (writeObject_writes treeSha treeData w) as (treeZ & _ & Hw1).
  assert (Htree : createTreeFromIndex w
                  = (treeSha, writeFile (getObjectPath treeSha) treeZ w)).
  { rewrite (createTreeFromIndex_nonempty _ Hidx). fold treeData. fold treeSha.
    by rewrite Hw1. }
  set (w1 := writeFile (getObjectPath treeSha) treeZ w) in *.
  assert (Hparent : getHEAD w1 = (parentSha, w1)).
  { unfold parentSha. rewrite Htree. simpl.
    rewrite <- (getHEAD_world w1) at 3. by destruct (getHEAD w1). }
  destruct (writeObject_writes commitSha commitData w1) as (commitZ & _ & Hw3).
  exists treeZ, commitZ. fold w1.
  set (w3 := writeFile (getObjectPath commitSha) commitZ w1) in *.
  assert (Hhead3 : files w3 !! headPath = Some content).
  { unfold w3, w1, writeFile. simpl.
    rewrite !lookup_insert_ne by apply object_path_not_head. done. }
  unfold cmdCommit. rewrite Htree. cbv beta iota.
  fold treeSha. unfold treeSha at 1.
  rewrite (computeSHA1_not_empty treeData). rewrite Hparent. cbv beta iota.
  unfold createCommit. fold commitData. fold commitSha. rewrite Hw3.
  cbv beta iota zeta.
  unfold updateHEAD. by rewrite (readFile_present _ _ _ Hhead3), Htarget.
Qed.

End AfterCommit.

(** X11. After a commit with a non-empty index, in a repository whose
    [HEAD] points to a ref file other than [HEAD], the index and the
    log: [getHEAD] returns the digest of the new commit (the parent of
    the next one), the index reads as empty, and committing again right
    away changes no file. *)
Theorem cmdCommit_then {E : Externals} `{!ExternalsOk E}
    (message : string) (now now_log : Z) (w : World) (content target : string) :
  readIndex w <> [] ->
  files w !! headPath = Some content ->
  head_target content = Some target ->
  target <> headPath -> target <> indexPath -> target <> logPath ->
  let treeSha := computeSHA1 (index_tree_data (readIndex w)) in
  let parentSha := (getHEAD (createTreeFromIndex w).2).1 in
  let commitSha := computeSHA1 (commit_data treeSha parentSha message now) in
  let w' := cmdCommit message now now_log w in
  getHEAD w' = (commitSha, w')
  /\ readIndex w' = []
  /\ forall message' now' now_log',
       files (cmdCommit message' now' now_log' w') = files w'.
Proof.
  intros Hidx Hhead Htarget Hnh Hni Hnl treeSha parentSha commitSha w'.
  destruct (cmdCommit_world message now now_log w content target Hidx Hhead Htarget)
    as (treeZ & commitZ & Hrun).
  fold treeSha parentSha commitSha w' in Hrun.
  assert (Hindex : files w' !! indexPath = Some "").
  { rewrite Hrun. cbn. apply lookup_insert_eq. }
  assert (Href : files w' !! target = Some (commitSha +:+ nl)).
  { rewrite Hrun. cbn. rewrite !lookup_insert_ne by done. apply lookup_insert_eq. }
  assert (Hhead' : files w' !! headPath = Some content).
  { rewrite Hrun. cbn.
    rewrite lookup_insert_ne by discriminate.
    rewrite lookup_insert_ne by discriminate.
    rewrite lookup_insert_ne by done.
    rewrite !lookup_insert_ne by apply object_path_not_head. done. }
  assert (Hempty : readIndex w' = []) by (apply readIndex_empty; by right).
  split; [|split; [done|]].
  - replace (commitSha, w') with (Str.chomp (commitSha +:+ nl), w')
      by (by rewrite chomp_nl).
    by apply (getHEAD_lookup _ content target).
  - intros message' now' now_log'. unfold cmdCommit, createTreeFromIndex.
    by rewrite Hempty.
Qed.

Lemma cmdCommit_then_witness :
  let w := sample_world (index_text index_b_a) in
  let w' := @cmdCommit sample_externals "first" 1700000000 1700000001 w in
  readIndex w <> []
  /\ (getHEAD w').1 = "becbd8e5f2ff0c192633404d5a6774818e9ba8b5"
  /\ readIndex w' = [].
Proof.
  intros w w'. split; [discriminate|].
  destruct (@cmdCommit_then sample_externals sample_externals_ok "first"
              1700000000 1700000001 w ("ref: refs\heads\master" +:+ nl)
              ".mygit\refs\heads\master")
    as (Hget & Hread & _);
    [discriminate | reflexivity | reflexivity | discriminate | discriminate
    | discriminate |].
  split; [|exact Hread].
  fold w' in Hget. rewrite Hget. reflexivity.
Defined.

(** ** The index file *)

Section IndexFile.

Lemma take_word_word (tok rest : string) :
  ws_free tok = true -> starts_ws rest = true ->
  Str.take_word (tok +:+ rest) = (tok, rest).
Proof.
  intros Htok Hrest. induction tok as [|a tok IH].
  - simpl. destruct rest as [|b rest]; [done|]. simpl in *. by rewrite Hrest.
  - simpl in *. apply andb_true_iff in Htok as [Ha Htok].
    apply negb_true_iff in Ha. rewrite Ha. by rewrite (IH Htok).
Qed.

Lemma extract_token (tok rest : string) :
  token tok = true -> starts_ws rest = true ->
  Str.extract (tok +:+ rest) = (tok, rest).
Proof.
  unfold token. intros [Hne Hws]%andb_true_iff Hrest. unfold Str.extract.
  destruct tok as [|a tok]; [done|].
  assert (Ha : Ascii.is_space a = false).
  { simpl in Hws. apply andb_true_iff in Hws as [Ha _]. by apply negb_true_iff. }
  replace (Str.skip_ws (String a tok +:+ rest)) with (String a tok +:+ rest)
    by (simpl; by rewrite Ha).
  by apply take_word_word.
Qed.

Lemma extract_space (rest : string) :
  Str.extract (" " +:+ rest) = Str.extract rest.
Proof. done. Qed.

Lemma ws_free_token (s : string) :
  ws_free s = true -> s = "" \/ token s = true.
Proof. intros H. destruct s; [by left|]. right. unfold token. by rewrite H. Qed.

(** A line of the index file is read back as the entry it was written
    for. *)
Lemma parse_index_line_line (e : IndexEntry) :
  index_entry_shaped e = true -> parse_index_line (index_line e) = e.
Proof.
  destruct e as [path sha mode]. unfold index_entry_shaped, index_line.
  cbn [ie_mode ie_sha ie_path].
  intros [[[[Hm Hs]%andb_true_iff Hp]%andb_true_iff Hms]%andb_true_iff Hsp]%andb_true_iff.
  unfold parse_index_line.
  destruct (ws_free_token _ Hm) as [->|Hmt].
  { destruct sha; [|done]. destruct path; [|done]. done. }
  rewrite (extract_token mode (" " +:+ sha +:+ " " +:+ path) Hmt eq_refl),
    extract_space.
  destruct (ws_free_token _ Hs) as [->|Hst].
  { destruct path; [|done]. done. }
  rewrite (extract_token sha (" " +:+ path) Hst eq_refl), extract_space.
  destruct (ws_free_token _ Hp) as [->|Hpt]; [done|].
  rewrite <- (sapp_nil_r path) at 1. by rewrite (extract_token path "" Hpt eq_refl).
Qed.

Lemma ws_free_lacks_LF (s : string) : ws_free s = true -> Str.lacks LF s = true.
Proof.
  apply all_impl. intros a Ha. apply negb_true_iff, Ascii.eqb_neq. by intros ->.
Qed.

Lemma index_line_lacks_LF (e : IndexEntry) :
  index_entry_shaped e = true -> Str.lacks LF (index_line e) = true.
Proof.
  unfold index_entry_shaped, index_line.
  intros [[[[Hm Hs]%andb_true_iff Hp]%andb_true_iff _]%andb_true_iff _]%andb_true_iff.
  rewrite !lacks_app.
  by rewrite (ws_free_lacks_LF _ Hm), (ws_free_lacks_LF _ Hs), (ws_free_lacks_LF _ Hp).
Qed.

Lemma index_text_cons (e : IndexEntry) (entries : list IndexEntry) :
  index_text (e :: entries) = index_line e +:+ nl +:+ index_text entries.
Proof. unfold index_line. cbn [index_text foldr]. by rewrite !sapp_assoc. Qed.

Lemma getlines_index_text (entries : list IndexEntry) :
  forallb index_entry_shaped entries = true ->
  map parse_index_line (Str.getlines (index_text entries)) = entries.
Proof.
  induction entries as [|e entries IH]; [done|]. cbn [forallb].
  intros [He Hes]%andb_true_iff.
  rewrite index_text_cons, getlines_nl by (by apply index_line_lacks_LF).
  cbn [map]. by rewrite parse_index_line_line, IH.
Qed.

Lemma skip_ws_head (s : string) :
  Str.skip_ws s = ""
  \/ exists a r, Str.skip_ws s = String a r /\ Ascii.is_space a = false.
Proof.
  induction s as [|a s IH]; [by left|]. simpl.
  destruct (Ascii.is_space a) eqn:Ha; [done|]. right. by exists a, s.
Qed.

Lemma take_word_ws_free (s : string) : ws_free (Str.take_word s).1 = true.
Proof.
  induction s as [|a s IH]; [done|]. simpl.
  destruct (Ascii.is_space a) eqn:Ha; [done|].
  destruct (Str.take_word s) as [word rest]. unfold ws_free in *. simpl in *.
  by rewrite Ha.
Qed.

(** A failed extraction leaves nothing to read. *)
Lemma extract_empty (s : string) :
  Str.empty (Str.extract s).1 = true -> Str.extract s = ("", "").
Proof.
  unfold Str.extract. destruct (skip_ws_head s) as [->|(a & r & -> & Ha)]; [done|].
  simpl. rewrite Ha. by destruct (Str.take_word r).
Qed.

Lemma extract_ws_free (s word rest : string) :
  Str.extract s = (word, rest) -> ws_free word = true.
Proof.
  intros H. pose proof (take_word_ws_free (Str.skip_ws s)) as Hw.
  unfold Str.extract in H. by rewrite H in Hw.
Qed.

Lemma parse_index_line_shaped (line : string) :
  index_entry_shaped (parse_index_line line) = true.
Proof.
  unfold parse_index_line, index_entry_shaped.
  destruct (Str.extract line) as [mode r1] eqn:E1.
  destruct (Str.extract r1) as [sha r2] eqn:E2.
  destruct (Str.extract r2) as [path r3] eqn:E3.
  cbn [ie_mode ie_sha ie_path].
  rewrite (extract_ws_free _ _ _ E1), (extract_ws_free _ _ _ E2),
    (extract_ws_free _ _ _ E3). cbn [andb].
  destruct mode as [|a mode].
  - pose proof (extract_empty line) as H. rewrite E1 in H.
    injection (H eq_refl) as ->. cbn in E2. injection E2 as <- <-.
    cbn in E3. by injection E3 as <- <-.
  - cbn. destruct sha as [|b sha]; [|done].
    pose proof (extract_empty r1) as H. rewrite E2 in H.
    injection (H eq_refl) as ->. cbn in E3. by injection E3 as <- <-.
Qed.

Lemma readIndex_shaped (w : World) : forallb index_entry_shaped (readIndex w) = true.
Proof.
  unfold readIndex. destruct (files w !! indexPath) as [text|]; [|done].
  induction (Str.getlines text) as [|l ls IH]; [done|].
  cbn [map forallb]. by rewrite parse_index_line_shaped, IH.
Qed.

Lemma readIndex_writeIndex_shaped (entries : list IndexEntry) (w : World) :
  forallb index_entry_shaped entries = true ->
  readIndex (writeIndex entries w) = entries.
Proof.
  intros Hok. unfold readIndex, writeIndex. cbn [files].
  rewrite lookup_insert_eq. by apply getlines_index_text.
Qed.

End IndexFile.

(** X12. The index file round trip: entries whose mode, digest and path
    are words without white space (an empty word only followed by empty
    words) are read back by [readIndex] exactly as [writeIndex] wrote
    them; and whatever the index file holds, the entries [readIndex]
    returns have this shape, so writing them back loses nothing. *)
Theorem readIndex_writeIndex (entries : list IndexEntry) (w : World) :
  forallb index_entry_shaped entries = true ->
  readIndex (writeIndex entries w) = entries
  /\ forall w0, readIndex (writeIndex (readIndex w0) w) = readIndex w0.
Proof.
  intros Hok. split; [by apply readIndex_writeIndex_shaped|].
  intros w0. apply readIndex_writeIndex_shaped, readIndex_shaped.
Qed.

Lemma readIndex_writeIndex_witness :
  forallb index_entry_shaped index_collide = true
  /\ readIndex (writeIndex index_collide (sample_world "")) = index_collide.
Proof.
  split; [reflexivity|].
  apply (readIndex_writeIndex index_collide (sample_world "")). reflexivity.
Defined.

(** ** Staging a file *)

Section Staging.

Context {E : Externals}.

Lemma index_without_shaped (path : string) (index : list IndexEntry) :
  forallb index_entry_shaped index = true ->
  forallb index_entry_shaped (index_without path index) = true.
Proof.
  induction index as [|e index IH]; [done|]. cbn [forallb].
  intros [He Hi]%andb_true_iff. unfold index_without. cbn [List.filter].
  destruct (negb _); [cbn [forallb]; rewrite He|]; by apply IH.
Qed.

Lemma index_without_paths (path : string) (index : list IndexEntry) :
  ~ In path (map ie_path (index_without path index)).
Proof.
  induction index as [|e index IH]; [by intros []|].
  unfold index_without. cbn [List.filter].
  destruct (String.eqb_spec (ie_path e) path) as [Heq|Hne]; [exact IH|].
  cbn. intros [H|H]; [done | by apply IH].
Qed.

Lemma index_without_NoDup (path : string) (index : list IndexEntry) :
  NoDup (map ie_path index) -> NoDup (map ie_path (index_without path index)).
Proof.
  induction index as [|e index IH]; [done|]. cbn [map].
  intros [Hnin Hnd]%NoDup_cons. unfold index_without. cbn [List.filter].
  destruct (negb _); [|by apply IH]. cbn [map]. apply NoDup_cons. split; [|by apply IH].
  intros Hin. apply Hnin. clear -Hin.
  apply list_elem_of_In in Hin. apply list_elem_of_In.
  induction index as [|x index IH]; [done|]. unfold index_without in Hin.
  cbn [List.filter] in Hin. destruct (negb _).
  - destruct Hin as [Hin|Hin]; [by left | right; by apply IH].
  - right. by apply IH.
Qed.

Lemma index_without_none (path : string) (index : list IndexEntry) :
  List.filter (fun e => String.eqb (ie_path e) path) (index_without path index) = [].
Proof.
  induction index as [|e index IH]; [done|]. unfold index_without. cbn [List.filter].
  destruct (String.eqb (ie_path e) path) eqn:Ee; cbn [negb]; [exact IH|].
  cbn [List.filter]. rewrite Ee. exact IH.
Qed.

Lemma writeObject_keeps (sha content path text : string) (w : World) :
  files w !! path = Some text ->
  is_Some (files (writeObject sha content w) !! path).
Proof.
  intros H. destruct (writeObject_files sha content w) as [->|[c ->]]; [eauto|].
  destruct (decide (getObjectPath sha = path)) as [->|Hne].
  - rewrite lookup_insert_eq. eauto.
  - rewrite lookup_insert_ne by done. eauto.
Qed.

(** The file branch of [addToIndex]. *)
Lemma addToIndex_file_world `{!ExternalsOk E} (d : Dirs) (fuel : nat)
    (path content : string) (w : World) :
  files w !! path = Some content ->
  is_directory d path = false ->
  let sha := computeSHA1 (blob_data content) in
  let mode := if owner_exec d path then "100755" else "100644" in
  addToIndex d (S fuel) path w
  = Some (writeIndex (index_without path (readIndex w) ++ [mkIndexEntry path sha mode])
            (writeObject sha (blob_data content) w)).
Proof.
  intros Hfile Hdir sha mode. cbn [addToIndex].
  assert (Hexists : fileExists path w = true).
  { unfold fileExists. apply bool_decide_eq_true_2. eauto. }
  unfold pathExists at 1. rewrite Hexists. cbn [orb negb]. rewrite Hdir.
  unfold createBlob. rewrite (readFile_present _ _ _ Hfile), Hexists.
  rewrite andb_false_r. cbv beta iota zeta.
  rewrite (computeSHA1_not_empty (blob_data content)).
  unfold getPermissions, pathExists, fileExists.
  rewrite bool_decide_eq_true_2 by (by eapply writeObject_keeps).
  cbn [orb negb]. by rewrite Hdir.
Qed.

End Staging.

(** X13. Staging a file: for a regular file whose path is a word without
    white space, [addToIndex] leaves an index that is the old one without
    the entries of that path, followed by one new entry with the path,
    the digest of the file's blob and the mode of its execute bit. So
    the path is listed exactly once, and paths that were listed once
    each still are. *)
Theorem addToIndex_file {E : Externals} `{!ExternalsOk E} (d : Dirs) (fuel : nat)
    (path content : string) (w : World) :
  files w !! path = Some content ->
  is_directory d path = false ->
  token path = true ->
  let sha := computeSHA1 (blob_data content) in
  let mode := if owner_exec d path then "100755" else "100644" in
  exists w',
    addToIndex d (S fuel) path w = Some w'
    /\ readIndex w'
       = index_without path (readIndex w) ++ [mkIndexEntry path sha mode]
    /\ length (List.filter (fun e => String.eqb (ie_path e) path) (readIndex w')) = 1
    /\ (NoDup (map ie_path (readIndex w)) -> NoDup (map ie_path (readIndex w'))).
Proof.
  intros Hfile Hdir Htok sha mode.
  set (w' := writeIndex
               (index_without path (readIndex w) ++ [mkIndexEntry path sha mode])
               (writeObject sha (blob_data content) w)).
  exists w'. split; [by apply addToIndex_file_world|].
  assert (Hread : readIndex w'
          = index_without path (readIndex w) ++ [mkIndexEntry path sha mode]).
  { apply readIndex_writeIndex_shaped. rewrite forallb_app.
    rewrite index_without_shaped by apply readIndex_shaped.
    cbn [forallb andb]. rewrite andb_true_r.
    unfold index_entry_shaped. cbn [ie_mode ie_sha ie_path].
    unfold token in Htok. apply andb_true_iff in Htok as [Hne Hws].
    assert (Hmode : ws_free mode = true /\ Str.empty mode = false)
      by (unfold mode; by destruct (owner_exec d path)).
    destruct Hmode as [-> ->]. unfold sha.
    rewrite Hws, (hex_ws_free _ (computeSHA1_hex (blob_data content))).
    by rewrite (computeSHA1_not_empty (blob_data content)). }
  rewrite Hread. split; [done|]. split.
  - rewrite List.filter_app, index_without_none. cbn. by rewrite String.eqb_refl.
  - intros Hnd. rewrite map_app. apply NoDup_app. split; [by apply index_without_NoDup|].
    split; [|apply NoDup_singleton].
    intros x Hx Hin. cbn in Hin. apply list_elem_of_In in Hin as [<-|[]].
    apply list_elem_of_In in Hx.
    by apply (index_without_paths path (readIndex w)).
Qed.

Lemma addToIndex_file_witness :
  let d := mkDirs (fun _ => false) (fun _ => []) (fun _ => false) in
  let w := writeFile "hello.txt" "hi" (sample_world (index_text index_b_a)) in
  files w !! "hello.txt" = Some "hi"
  /\ token "hello.txt" = true
  /\ exists w',
       @addToIndex sample_externals d 1 "hello.txt" w = Some w'
       /\ map ie_path (readIndex w') = ["b.txt"; "a.txt"; "hello.txt"].
Proof.
  intros d w. split; [reflexivity|]. split; [reflexivity|].
  destruct (@addToIndex_file sample_externals sample_externals_ok d 0
              "hello.txt" "hi" w)
    as (w' & Hadd & Hread & _); [reflexivity | reflexivity | reflexivity |].
  exists w'. split; [exact Hadd|]. rewrite Hread. reflexivity.
Defined.

(** ** Blobs of files *)

(** X14. For a path that is not a directory, [createBlob] returns the
    empty digest exactly when the path does not exist, and then writes
    nothing; for a file that exists, an empty one included, it returns
    the digest of ["blob <size>\0<content>"] and writes that object.
    [cmdHashObject] prints this digest whether or not it was asked to
    write. *)
Theorem createBlob_result {E : Externals} `{!ExternalsOk E} (d : Dirs)
    (path : string) (w : World) :
  is_directory d path = false ->
  ((createBlob path w).1 = "" <-> pathExists d path w = false)
  /\ (pathExists d path w = false -> files (createBlob path w).2 = files w)
  /\ (forall content,
        files w !! path = Some content ->
        createBlob path w
        = (computeSHA1 (blob_data content),
           writeObject (computeSHA1 (blob_data content)) (blob_data content) w)
        /\ forall write,
             effects (cmdHashObject path write w)
             = effects (createBlob path w).2
               ++ [Stdout (computeSHA1 (blob_data content) +:+ nl)]).
Proof.
  intros Hdir.
  assert (Hexists : pathExists d path w = false <-> files w !! path = None).
  { unfold pathExists, fileExists. rewrite Hdir, orb_false_r.
    rewrite bool_decide_eq_false. split.
    - intros Hno. destruct (files w !! path) eqn:Hfile; [|done].
      destruct Hno. eauto.
    - intros -> [? ?]. done. }
  rewrite !Hexists.
  assert (Hsome : forall content, files w !! path = Some content ->
            createBlob path w
            = (computeSHA1 (blob_data content),
               writeObject (computeSHA1 (blob_data content)) (blob_data content) w)).
  { intros content Hfile. unfold createBlob, fileExists.
    rewrite (readFile_present _ _ _ Hfile), Hfile.
    rewrite bool_decide_eq_true_2 by eauto. by rewrite andb_false_r. }
  assert (Hnone : files w !! path = None ->
            createBlob path w
            = ("", emit (Stderr ("Error: Cannot read file " +:+ path +:+ nl)) w)).
  { intros Hfile. unfold createBlob, readFile, fileExists. rewrite Hfile. cbn.
    rewrite Hfile. by rewrite bool_decide_eq_false_2 by (by intros [? ?]). }
  split; [|split].
  - destruct (files w !! path) as [content|] eqn:Hfile.
    + rewrite (Hsome content eq_refl). cbn [fst]. split; [|done]. intros H.
      pose proof (computeSHA1_not_empty (blob_data content)) as Hne.
      by rewrite H in Hne.
    + by rewrite (Hnone eq_refl).
  - intros Hfile. by rewrite (Hnone Hfile).
  - intros content Hfile. split; [by apply Hsome|]. intros write.
    unfold cmdHashObject. rewrite (Hsome content Hfile). cbn [snd].
    by rewrite (computeSHA1_not_empty (blob_data content)).
Qed.

Lemma createBlob_result_witness :
  let d := mkDirs (fun path => String.eqb path "src") (fun _ => [])
                  (fun _ => false) in
  is_directory d "missing.txt" = false
  /\ pathExists d "missing.txt" (sample_world "") = false
  /\ (@createBlob sample_externals "missing.txt" (sample_world "")).1 = "".
Proof.
  intros d. split; [reflexivity|]. split; [reflexivity|].
  apply (@createBlob_result sample_externals sample_externals_ok d
           "missing.txt" (sample_world "")); reflexivity.
Defined.

(** ** File names *)

Section FileNames.

Lemma separator_decide (a : ascii) :
  bool_decide (a ∈ ["\"%char; "/"%char]) = is_separator a.
Proof.
  unfold is_separator.
  destruct (Ascii.eqb_spec a "\") as [->|H1]; [done|].
  destruct (Ascii.eqb_spec a "/") as [->|H2]; [done|].
  apply bool_decide_eq_false_2. intros Hin. apply list_elem_of_In in Hin.
  destruct Hin as [<-|[<-|[]]]; done.
Qed.

Lemma find_last_none (s : string) :
  sep_free s = true -> Str.find_last_of ["\"%char; "/"%char] s = None.
Proof.
  unfold sep_free. induction s as [|a s IH]; [done|]. simpl.
  intros [Ha Hs]%andb_true_iff. rewrite (IH Hs), separator_decide.
  apply negb_true_iff in Ha. by rewrite Ha.
Qed.

Lemma find_last_some (s : string) (i : nat) :
  Str.find_last_of ["\"%char; "/"%char] s = Some i ->
  sep_free (Str.drop (i + 1) s) = true.
Proof.
  revert i. induction s as [|a s IH]; [done|]. intros i. simpl.
  destruct (Str.find_last_of _ s) as [j|] eqn:Ej.
  - intros [= <-]. apply (IH j eq_refl).
  - rewrite separator_decide. destruct (is_separator a); [|done].
    intros [= <-]. simpl. clear IH.
    induction s as [|b s IH]; [done|]. simpl in Ej.
    destruct (Str.find_last_of _ s); [done|].
    rewrite separator_decide in Ej. unfold sep_free in *. simpl.
    destruct (is_separator b); [done|]. simpl. by apply IH.
Qed.

Lemma find_last_sep (dir name : string) (c : ascii) :
  is_separator c = true -> sep_free name = true ->
  Str.find_last_of ["\"%char; "/"%char] (dir +:+ String c name)
  = Some (Str.len dir).
Proof.
  intros Hc Hname. induction dir as [|a dir IH]; simpl.
  - by rewrite (find_last_none _ Hname), separator_decide, Hc.
  - by rewrite IH.
Qed.

End FileNames.

(** X15. [getFilename] returns what follows the last backslash or slash
    of the path: the result holds no separator, a path without separator
    is returned as it is, and a path that ends with a separator gives
    the empty name. *)
Theorem getFilename_terminal (path : string) :
  sep_free (getFilename path) = true
  /\ (sep_free path = true -> getFilename path = path)
  /\ (forall dir name c,
        is_separator c = true -> sep_free name = true ->
        getFilename (dir +:+ String c name) = name).
Proof.
  split; [|split].
  - unfold getFilename.
    destruct (Str.find_last_of _ path) as [i|] eqn:Ei; [by apply find_last_some|].
    clear -Ei. induction path as [|a path IH]; [done|]. simpl in Ei.
    destruct (Str.find_last_of _ path); [done|].
    rewrite separator_decide in Ei. unfold sep_free in *. simpl.
    destruct (is_separator a); [done|]. simpl. by apply IH.
  - intros H. unfold getFilename. by rewrite find_last_none.
  - intros dir name c Hc Hname. unfold getFilename.
    rewrite (find_last_sep _ _ _ Hc Hname).
    replace (dir +:+ String c name) with ((dir +:+ string1 c) +:+ name)
      by (by rewrite sapp_assoc).
    replace (Str.len dir + 1) with (Str.len (dir +:+ string1 c))
      by (rewrite len_app; done).
    apply drop_len_app.
Qed.

(** ** Showing an object *)

(** X16. [cmdCatFile] on an object of the form
    ["<kind> <size>\0<payload>"] (as the blob, tree and commit encoders
    build it): the flag [p] prints the payload as it is, [s] the decimal
    size and [t] the kind, each of the last two on a line; any other flag
    prints nothing. *)
Theorem catFile_object (kind payload : string) :
  Str.lacks SP kind = true ->
  Str.lacks NUL kind = true ->
  catFile_data (object_of kind payload) "p" = [Stdout payload]
  /\ catFile_data (object_of kind payload) "s"
     = [Stdout (Str.to_string (Str.len payload) +:+ nl)]
  /\ catFile_data (object_of kind payload) "t" = [Stdout (kind +:+ nl)]
  /\ (forall flag, flag <> "p"%char -> flag <> "s"%char -> flag <> "t"%char ->
        catFile_data (object_of kind payload) flag = [])
  /\ blob_data payload = object_of "blob" payload
  /\ tree_object payload = object_of "tree" payload
  /\ commit_object payload = object_of "commit" payload.
Proof.
  intros Hsp Hnul.
  set (size := Str.to_string (Str.len payload)).
  set (header := kind +:+ " " +:+ size).
  assert (Hdata : object_of kind payload = header +:+ String NUL payload).
  { unfold object_of, header. fold size. by rewrite !sapp_assoc. }
  assert (Hheader : Str.lacks NUL header = true).
  { unfold header. rewrite !lacks_app, Hnul. cbn [andb].
    change (Str.lacks NUL " ") with true. cbn [andb].
    apply digits_lack; [done | apply to_string_digits]. }
  assert (Hrun : forall flag,
            catFile_data (object_of kind payload) flag
            = if Ascii.eqb flag "p" then [Stdout payload]
              else if Ascii.eqb flag "s" then [Stdout (size +:+ nl)]
              else if Ascii.eqb flag "t" then [Stdout (kind +:+ nl)]
              else []).
  { intros flag. unfold catFile_data. rewrite Hdata.
    assert (Hne : Str.empty (header +:+ String NUL payload) = false)
      by (by destruct header).
    rewrite Hne, (find_sep _ _ _ Hheader), substr_prefix.
    replace (header +:+ String NUL payload)
      with ((header +:+ string1 NUL) +:+ payload) by (by rewrite sapp_assoc).
    replace (Str.len header + 1) with (Str.len (header +:+ string1 NUL))
      by (rewrite len_app; done).
    rewrite drop_len_app.
    unfold header. change (kind +:+ " " +:+ size) with (kind +:+ String SP size).
    rewrite (find_sep _ _ _ Hsp), substr_prefix.
    replace (kind +:+ String SP size) with ((kind +:+ string1 SP) +:+ size)
      by (by rewrite sapp_assoc).
    replace (Str.len kind + 1) with (Str.len (kind +:+ string1 SP))
      by (rewrite len_app; done).
    by rewrite drop_len_app. }
  rewrite !Hrun. repeat split.
  intros flag Hp Hs Ht.
  rewrite Hrun. apply Ascii.eqb_neq in Hp, Hs, Ht. by rewrite Hp, Hs, Ht.
Qed.

Lemma catFile_object_witness :
  Str.lacks SP "blob" = true /\ Str.lacks NUL "blob" = true
  /\ catFile_data (blob_data "hi") "s" = [Stdout ("2" +:+ nl)].
Proof.
  split; [reflexivity|]. split; [reflexivity|].
  apply (catFile_object "blob" "hi"); reflexivity.
Defined.

(** ** The log *)

Section Log.

Lemma foldl_emit_lines (lines : list string) (w : World) :
  foldl (fun w' line => emit (Stdout (line +:+ nl)) w') w lines
  = mkWorld (files w)
            (effects w ++ map (fun line => Stdout (line +:+ nl)) lines).
Proof.
  revert w. induction lines as [|l ls IH]; intros w; simpl.
  - rewrite List.app_nil_r. by destruct w.
  - rewrite IH. unfold emit. cbn. by rewrite <- List.app_assoc.
Qed.

Lemma stdout_text_app (a b : list Effect) :
  stdout_text (a ++ b) = stdout_text a +:+ stdout_text b.
Proof.
  induction a as [|e a IH]; [done|]. simpl.
  destruct e; rewrite IH; [done | done | by rewrite sapp_assoc | done].
Qed.

Lemma stdout_text_lines (lines : list string) :
  stdout_text (map (fun line => Stdout (line +:+ nl)) lines) = join_lines lines.
Proof.
  induction lines as [|l ls IH]; [done|]. simpl. rewrite IH.
  by rewrite sapp_assoc.
Qed.

Lemma terminated_app (a b : string) :
  terminated a = true -> terminated b = true -> terminated (a +:+ b) = true.
Proof.
  intros Ha Hb. destruct b as [|x b]; [by rewrite sapp_nil_r|].
  unfold terminated in *. rewrite ends_with_app by done.
  change (Str.ends_with LF (String x b) = true) in Hb.
  rewrite Hb. apply orb_true_r.
Qed.

Lemma log_record_terminated (commitSha parentSha message : string) (now : Z) :
  terminated (log_record commitSha parentSha message now) = true.
Proof.
  unfold log_record.
  replace ("commit " +:+ commitSha +:+ nl
           +:+ (if negb (Str.empty parentSha) then "parent " +:+ parentSha +:+ nl else "")
           +:+ "message " +:+ message +:+ nl
           +:+ "timestamp " +:+ Str.of_Z now +:+ nl +:+ "---" +:+ nl)
    with (("commit " +:+ commitSha +:+ nl
           +:+ (if negb (Str.empty parentSha) then "parent " +:+ parentSha +:+ nl else "")
           +:+ "message " +:+ message +:+ nl
           +:+ "timestamp " +:+ Str.of_Z now +:+ nl +:+ "---") +:+ nl)
    by (by rewrite !sapp_assoc).
  apply terminated_nl.
Qed.

End Log.

(** X17. [cmdLog] echoes the log: when the log file is empty or ends
    with a newline, what it writes to [cout] is the content of the file,
    and no file changes. The records [updateLog] appends keep the log in
    that form. Without a log file it prints ["No commits yet"]. *)
Theorem cmdLog_echo (w : World) :
  (forall content,
     files w !! logPath = Some content -> terminated content = true ->
     stdout_text (effects (cmdLog w)) = stdout_text (effects w) +:+ content
     /\ files (cmdLog w) = files w)
  /\ (forall commitSha parentSha message now old,
        terminated old = true ->
        terminated (old +:+ log_record commitSha parentSha message now) = true)
  /\ (files w !! logPath = None ->
      cmdLog w = emit (Stdout ("No commits yet" +:+ nl)) w).
Proof.
  split; [|split].
  - intros content Hlog Hterm. unfold cmdLog, fileExists. rewrite Hlog.
    rewrite bool_decide_eq_true_2 by eauto. cbn [negb].
    rewrite (readFile_present _ _ _ Hlog), foldl_emit_lines. cbn [effects files].
    split; [|done].
    by rewrite stdout_text_app, stdout_text_lines, join_getlines.
  - intros commitSha parentSha message now old Hold.
    apply terminated_app; [done | apply log_record_terminated].
  - intros Hlog. unfold cmdLog, fileExists. rewrite Hlog.
    by rewrite bool_decide_eq_false_2 by (by intros [? ?]).
Qed.

(** ** A new repository *)

Section NewRepository.

Context {E : Externals}.

Lemma writeObject_other (sha content path : string) (w : World) :
  path <> getObjectPath sha ->
  files (writeObject sha content w) !! path = files w !! path.
Proof.
  intros Hne. destruct (writeObject_files sha content w) as [->|[c ->]]; [done|].
  by rewrite lookup_insert_ne.
Qed.

(** [getHEAD] when the ref file [HEAD] names does not exist yet. *)
Lemma getHEAD_no_ref (w : World) :
  files w !! headPath = Some ("ref: refs\heads\master" +:+ nl) ->
  files w !! (REPO_DIR +:+ "\refs\heads\master") = None ->
  getHEAD w = ("", w).
Proof.
  intros Hhead Href. unfold getHEAD, fileExists. rewrite Hhead.
  rewrite bool_decide_eq_true_2 by eauto. cbn [negb].
  rewrite (readFile_present _ _ _ Hhead).
  change (starts_with "ref: " ("ref: refs\heads\master" +:+ nl)) with true.
  cbv iota.
  change (Str.chomp (REPO_DIR +:+ "\" +:+ Str.drop 5 ("ref: refs\heads\master" +:+ nl)))
    with (REPO_DIR +:+ "\refs\heads\master").
  rewrite Href. by rewrite bool_decide_eq_false_2 by (by intros [? ?]).
Qed.

End NewRepository.

(** X18. [cmdInit] where no [.mygit] exists writes [HEAD] with
    ["ref: refs\heads\master"] and an empty index and touches no other
    file; then [getHEAD] returns the empty digest while the ref file is
    missing, the index reads as empty, and [cmdInit] in the repository
    that now exists changes no file. *)
Theorem cmdInit_fresh (d : Dirs) (w : World) :
  pathExists d REPO_DIR w = false ->
  files w !! (REPO_DIR +:+ "\refs\heads\master") = None ->
  let w' := cmdInit d w in
  files w' !! headPath = Some ("ref: refs\heads\master" +:+ nl)
  /\ files w' !! indexPath = Some ""
  /\ (forall path, path <> headPath -> path <> indexPath ->
        files w' !! path = files w !! path)
  /\ getHEAD w' = ("", w')
  /\ readIndex w' = []
  /\ (forall d', is_directory d' REPO_DIR = true ->
        files (cmdInit d' w') = files w').
Proof.
  intros Hfresh Href w'.
  assert (Hw' : w' = emit (Stdout ("Initialized empty repository in " +:+ REPO_DIR +:+ nl))
                       (writeFile indexPath ""
                          (writeFile headPath ("ref: refs\heads\master" +:+ nl) w))).
  { unfold w', cmdInit. by rewrite Hfresh. }
  assert (Hhead : files w' !! headPath = Some ("ref: refs\heads\master" +:+ nl)).
  { rewrite Hw'. cbn. rewrite lookup_insert_ne by discriminate.
    apply lookup_insert_eq. }
  assert (Hindex : files w' !! indexPath = Some "").
  { rewrite Hw'. cbn. apply lookup_insert_eq. }
  assert (Hother : forall path, path <> headPath -> path <> indexPath ->
            files w' !! path = files w !! path).
  { intros path Hh Hi. rewrite Hw'. cbn. by rewrite !lookup_insert_ne. }
  split; [done|]. split; [done|]. split; [done|]. split; [|split].
  - apply getHEAD_no_ref; [done|]. rewrite Hother by discriminate. done.
  - apply readIndex_empty. by right.
  - intros d' Hdir. unfold cmdInit, pathExists. rewrite Hdir, orb_true_r. done.
Qed.

Lemma cmdInit_fresh_witness :
  let d := mkDirs (fun _ => false) (fun _ => []) (fun _ => false) in
  pathExists d REPO_DIR (mkWorld ∅ []) = false
  /\ files (cmdInit d (mkWorld ∅ [])) !! headPath
     = Some ("ref: refs\heads\master" +:+ nl).
Proof.
  intros d. split; [reflexivity|].
  apply (cmdInit_fresh d (mkWorld ∅ [])); reflexivity.
Defined.

(** X19. The first commit of a repository is a root commit: with [HEAD]
    as [cmdInit] writes it and no ref file yet, a commit with a
    non-empty index creates the ref file with the digest of a commit
    whose header has no parent line (only tree, author and committer),
    and what it appends to the log is the record without parent line. *)
Theorem first_commit_is_root {E : Externals} `{!ExternalsOk E}
    (message : string) (now now_log : Z) (w : World) :
  readIndex w <> [] ->
  files w !! headPath = Some ("ref: refs\heads\master" +:+ nl) ->
  files w !! (REPO_DIR +:+ "\refs\heads\master") = None ->
  let treeSha := computeSHA1 (index_tree_data (readIndex w)) in
  let commitSha := computeSHA1 (commit_data treeSha "" message now) in
  let w' := cmdCommit message now now_log w in
  files w' !! (REPO_DIR +:+ "\refs\heads\master") = Some (commitSha +:+ nl)
  /\ commit_header treeSha "" message now
     = ["tree " +:+ treeSha;
        "author User <user@example.com> " +:+ Str.of_Z now +:+ " +0000";
        "committer User <user@example.com> " +:+ Str.of_Z now +:+ " +0000"]
  /\ In (Appended logPath
           ("commit " +:+ commitSha +:+ nl +:+ "message " +:+ message +:+ nl
            +:+ "timestamp " +:+ Str.of_Z now_log +:+ nl +:+ "---" +:+ nl))
        (effects w').
Proof.
  intros Hidx Hhead Href treeSha commitSha w'.
  assert (Hparent : (getHEAD (createTreeFromIndex w).2).1 = "").
  { rewrite (createTreeFromIndex_nonempty _ Hidx). cbn [snd].
    rewrite getHEAD_no_ref; [done | |].
    - rewrite writeObject_other by (intros H; discriminate H). done.
    - rewrite writeObject_other by (intros H; discriminate H). done. }
  destruct (cmdCommit_world message now now_log w _
              (REPO_DIR +:+ "\refs\heads\master") Hidx Hhead eq_refl)
    as (treeZ & commitZ & Hrun).
  rewrite Hparent in Hrun. fold treeSha commitSha w' in Hrun.
  split; [|split].
  - rewrite Hrun. cbn. rewrite !lookup_insert_ne by discriminate.
    apply lookup_insert_eq.
  - rewrite commit_header_lines; [done | | done].
    apply hex_lacks; [done | apply computeSHA1_hex].
  - rewrite Hrun. cbn. rewrite !in_app_iff. left. left. right. by left.
Qed.

Lemma first_commit_is_root_witness :
  let w := sample_world (index_text index_b_a) in
  readIndex w <> []
  /\ files w !! (REPO_DIR +:+ "\refs\heads\master") = None
  /\ files (@cmdCommit sample_externals "first" 1700000000 1700000001 w)
       !! (REPO_DIR +:+ "\refs\heads\master")
     = Some ("becbd8e5f2ff0c192633404d5a6774818e9ba8b5" +:+ nl).
Proof.
  intros w. split; [discriminate|]. split; [reflexivity|].
  apply (@first_commit_is_root sample_externals sample_externals_ok "first"
           1700000000 1700000001 w); [discriminate | reflexivity | reflexivity].
Defined.

(** ** Restoring files *)

Section Restore.

Context {E : Externals}.

Lemma blob_content_blob_data (c : string) : blob_content (blob_data c) = Some c.
Proof.
  unfold blob_content, blob_data. rewrite header_split by done.
  by rewrite header_drop.
Qed.

Lemma sep_free_not_object (name sha : string) :
  sep_free name = true -> name <> getObjectPath sha.
Proof. intros H ->. discriminate H. Qed.

Lemma stored_writeFile (fuel : nat) (w : World) (sha data path text : string) :
  path <> getObjectPath sha ->
  stored fuel w sha data -> stored fuel (writeFile path text w) sha data.
Proof.
  intros Hne (z & Hz & Hdec). exists z. split; [|done].
  unfold writeFile. cbn. by rewrite lookup_insert_ne.
Qed.

(** The loop over entries that are all files of the directory. *)
Lemma restore_files (recurse : string -> string -> World -> option World)
    (fuel : nat) (contents : TreeEntry -> string) (es : list TreeEntry) (w : World) :
  (forall e, In e es ->
     file_entry e = true
     /\ stored fuel w (te_sha e) (blob_data (contents e))) ->
  NoDup (map te_name es) ->
  exists w',
    foldl (restore_entry recurse fuel "") (Some w) es = Some w'
    /\ (forall e, In e es -> files w' !! te_name e = Some (contents e))
    /\ (forall path, ~ In path (map te_name es) -> files w' !! path = files w !! path).
Proof.
  revert w. induction es as [|e es IH]; intros w Hes Hnd.
  - exists w. by repeat split.
  - apply NoDup_cons in Hnd as [Hnin Hnd].
    destruct (Hes e (or_introl eq_refl)) as [Hfile Hstored].
    unfold file_entry in Hfile.
    apply andb_true_iff in Hfile as [[Htree Hname]%andb_true_iff Hsep].
    apply negb_true_iff in Htree, Hname.
    set (w1 := writeFile (te_name e) (contents e) w).
    assert (Hstep : restore_entry recurse fuel "" (Some w) e = Some w1).
    { unfold restore_entry. rewrite Hname, Htree. cbn [Str.empty].
      by rewrite (readObject_stored _ _ _ _ Hstored), blob_content_blob_data. }
    destruct (IH w1) as (w' & Hrun & Hfiles & Hother); [|done|].
    { intros e' He'. destruct (Hes e' (or_intror He')) as [Hf' Hs'].
      split; [done|]. apply stored_writeFile; [|done].
      by apply sep_free_not_object. }
    exists w'. cbn [foldl]. rewrite Hstep. split; [exact Hrun|]. split.
    + intros e' [<-|He']; [|by apply Hfiles].
      rewrite Hother by (by rewrite <- list_elem_of_In).
      unfold w1, writeFile. cbn. apply lookup_insert_eq.
    + intros path Hpath. cbn in Hpath.
      rewrite Hother by (intros H; apply Hpath; by right).
      unfold w1, writeFile. cbn. rewrite lookup_insert_ne; [done|].
      intros Heq. apply Hpath. by left.
Qed.

End Restore.

(** X20. Restoring a tree of files: when the tree object and the blob of
    each of its entries are in the store, the entries are files of the
    directory itself (no subtree, names without separator) and no name
    occurs twice, [restoreTree] writes to each name the content of its
    blob and changes no other file. *)
Theorem restoreTree_files {E : Externals} (depth fuel : nat)
    (treeSha treeData : string) (es : list TreeEntry)
    (contents : TreeEntry -> string) (w : World) :
  stored fuel w treeSha treeData ->
  parseTree_data treeData = Some es ->
  (forall e, In e es ->
     file_entry e = true
     /\ stored fuel w (te_sha e) (blob_data (contents e))) ->
  NoDup (map te_name es) ->
  exists w',
    restoreTree (S depth) fuel treeSha "" w = Some w'
    /\ (forall e, In e es -> files w' !! te_name e = Some (contents e))
    /\ (forall path, ~ In path (map te_name es) -> files w' !! path = files w !! path).
Proof.
  intros Htree Hparse Hes Hnd.
  destruct (restore_files (restoreTree depth fuel) fuel contents es w Hes Hnd)
    as (w' & Hrun & Hfiles & Hother).
  exists w'. split; [|done]. cbn [restoreTree]. unfold parseTree.
  by rewrite (readObject_stored _ _ _ _ Htree), Hparse.
Qed.

Lemma restoreTree_files_witness :
  exists w',
    @restoreTree sample_externals 1 33
      (@computeSHA1 sample_externals (tree_data [hello_entry])) "" hello_store
    = Some w'
    /\ files w' !! "hello.txt" = Some "hi".
Proof.
  destruct (@restoreTree_files sample_externals 0 33
              (@computeSHA1 sample_externals (tree_data [hello_entry]))
              (tree_data [hello_entry]) [hello_entry] (fun _ => "hi") hello_store)
    as (w' & Hrun & Hfiles & _).
  - eexists. split; vm_compute; reflexivity.
  - vm_compute. reflexivity.
  - intros e [<-|[]]. split; [reflexivity|].
    eexists. split; vm_compute; reflexivity.
  - apply NoDup_singleton.
  - exists w'. split; [exact Hrun|]. apply (Hfiles hello_entry). by left.
Defined.
